(** * The polling monitors of the StackPath demonstration app

    A shallow embedding of the three polling loops of [main.go]:

    - [waitForComputeWorkload]  (bring-up instance monitor, lines 197-250),
    - [displayWAFRequests]      (WAF event monitor, lines 306-340),
    - [displayInstanceLogs]     (continuous instance monitor, lines 344-416),

    together with [donef] (lines 444-449).  Every loop is a function from
    the state held between two cycles and the answers the outside world
    gives during one cycle to the next state and the lines written to
    STDOUT.  The API client ([GetInstances], [GetWAFRequests],
    [GetInstanceLogs]) only performs HTTP requests; its answers are inputs
    of the loops.

    The client of [pkg/stackpath] and the provisioning steps of [main]
    (lines 33-93) are embedded beside the loops: the client as functions
    of the answers of the network, [main] in a monad over the state of the
    process. *)

From Stdlib Require Import ZArith Lia Ascii.
From stdpp Require Import gmap strings list fin_maps sorting.

Local Open Scope Z_scope.

(** ** Values *)

(** [time.Time], as a number of nanoseconds.  [Time.Add] cannot overflow
    on the instants this program handles (the wall clock and RFC 3339
    timestamps), so instants are unbounded integers. *)
Abbreviation Time := Z (only parsing).

(** [time.Second], a [time.Duration] in nanoseconds. *)
Definition Second : Z := 1000000000.

(** [t.Add(d)]. *)
Definition Add (t : Time) (d : Z) : Time := t + d.

(** Go's [int] is 64 bits wide on the platforms the demo runs on; [i++]
    wraps around. *)
Definition wrap64 (z : Z) : Z := (z + 2 ^ 63) mod 2 ^ 64 - 2 ^ 63.

(** A Go [error], as the message [%s] prints for it. *)
Abbreviation error := string (only parsing).

(** The [(value, err)] pair a client call returns. *)
Inductive fetched (A : Type) : Type :=
| Fetched (x : A)
| FetchError (err : error).
Arguments Fetched {A} x.
Arguments FetchError {A} err.

(** [stackpath.Instance] ([pkg/stackpath/compute.go]). *)
Record Instance : Type := mkInstance {
  ID : string;
  Name : string;
  Phase : string;
  IPAddress : string;
  ExternalIPAddress : string
}.

(** [stackpath.WAFRequest] ([pkg/stackpath/delivery.go]). *)
Record WAFRequest : Type := mkWAFRequest {
  WAFID : string;
  Action : string;
  Method : string;
  Path : string;
  ClientIP : string;
  Country : string;
  UserAgent : string;
  RuleName : string;
  RequestTime : Time
}.

#[global] Instance Instance_eq_dec : EqDecision Instance.
Proof. solve_decision. Defined.

#[global] Instance WAFRequest_eq_dec : EqDecision WAFRequest.
Proof. solve_decision. Defined.

(** ** Output *)

(** An operand of a [fmt.Printf] call: the program prints strings and,
    for WAF requests, one [time.Time]. *)
Inductive Arg : Type :=
| Str (s : string)
| Tm (t : Time).

(** One call that writes to STDOUT: [fmt.Printf(format, args...)] or
    [fmt.Println(args...)]. *)
Inductive Line : Type :=
| Printf (format : string) (args : list Arg)
| Println (args : list Arg).

#[global] Instance Arg_eq_dec : EqDecision Arg.
Proof. solve_decision. Defined.

#[global] Instance Line_eq_dec : EqDecision Line.
Proof. solve_decision. Defined.

Definition dquote : string := String "034"%char "".
Definition newline : string := String "010"%char "".

(** The format strings of the monitors, as written in [main.go]. *)

(** Line 232: ["| Instance \"%s\" is %s\n"]. *)
Definition fmt_instance_is : string :=
  "| Instance " +:+ dquote +:+ "%s" +:+ dquote +:+ " is %s" +:+ newline.

(** Line 368: ["[New instance %s] instance is %s\n"]. *)
Definition fmt_new_instance : string :=
  "[New instance %s] instance is %s" +:+ newline.

(** Line 371: ["[%s] instance is now %s\n"]. *)
Definition fmt_instance_now : string :=
  "[%s] instance is now %s" +:+ newline.

(** Line 405: ["[%s] instance went away\n"]. *)
Definition fmt_went_away : string :=
  "[%s] instance went away" +:+ newline.

(** Line 385: ["[%s] %s\n"]. *)
Definition fmt_log_line : string := "[%s] %s" +:+ newline.

(** Line 322: ["[WAF %s%s] %s %s %s - %s (%s) - %s\n"]. *)
Definition fmt_waf : string :=
  "[WAF %s%s] %s %s %s - %s (%s) - %s" +:+ newline.

(** [donef] (lines 444-449) prints the message, ["Done"] and an empty
    line; [os.Exit(1)] is the [Exit] outcome of the caller. *)
Definition donef (format : string) (a : list Arg) : list Line :=
  [Printf (format +:+ newline) a; Println [Str "Done"]; Println []].

(** How one cycle of a loop leaves the loop: it goes round again
    ([Continue]), leaves through [break] ([Break]) or ends the process
    through [donef] ([Exit]).  The state carried by [Exit] is the one the
    loop held when the process ended. *)
Inductive outcome (S : Type) : Type :=
| Continue (s : S)
| Break (s : S)
| Exit (s : S).
Arguments Continue {S} s.
Arguments Break {S} s.
Arguments Exit {S} s.

Definition state_of {S : Type} (o : outcome S) : S :=
  match o with Continue s | Break s | Exit s => s end.

(** ** Classifying lines *)

(** [key_is key l]: the first operand of the [Printf] call [l] is the
    string [key]. *)
Definition key_is (key : string) (l : Line) : bool :=
  match l with
  | Printf _ (Str k :: _) => bool_decide (k = key)
  | _ => false
  end.

Definition has_format (format : string) (l : Line) : bool :=
  match l with
  | Printf f _ => bool_decide (f = format)
  | Println _ => false
  end.

(** The transition lines: what the bring-up monitor prints for an
    instance, and the APPEARED, CHANGED and DISAPPEARED lines of the
    continuous monitor. *)
Definition transition_formats : list string :=
  [fmt_instance_is; fmt_new_instance; fmt_instance_now; fmt_went_away].

Definition is_transition (l : Line) : bool :=
  match l with
  | Printf f _ => bool_decide (f ∈ transition_formats)
  | Println _ => false
  end.

(** The transition lines of [out], and those among them about [key]. *)
Definition transitions (out : list Line) : list Line :=
  filter (λ l, is_transition l) out.

Definition transitions_of (key : string) (out : list Line) : list Line :=
  filter (λ l, is_transition l && key_is key l) out.

(** The lines of [out] printed with [format] about [key]. *)
Definition lines_of (format key : string) (out : list Line) : list Line :=
  filter (λ l, has_format format l && key_is key l) out.

(** ** Library functions the monitors call

    [strings.ToLower] and the line splitting of [bufio.Scanner] belong to
    Go's standard library.  The monitors are defined over any two such
    functions; the two below are the ASCII instances the examples run
    with. *)

Definition ascii_lower (c : ascii) : ascii :=
  let n := nat_of_ascii c in
  if (Nat.leb 65 n && Nat.leb n 90)%bool then ascii_of_nat (n + 32) else c.

Fixpoint ascii_ToLower (s : string) : string :=
  match s with
  | EmptyString => EmptyString
  | String c rest => String (ascii_lower c) (ascii_ToLower rest)
  end.

(** Splits at every line feed; a final line without line feed counts, an
    empty remainder does not. *)
Fixpoint split_lines (cur : string) (s : string) : list string :=
  match s with
  | EmptyString => if bool_decide (cur = EmptyString) then [] else [cur]
  | String c rest =>
      if bool_decide (c = "010"%char) then cur :: split_lines EmptyString rest
      else split_lines (cur +:+ String c EmptyString) rest
  end.

(** ** The API client: package [stackpath]

    Every function of the package builds one HTTP request (two for the
    WAF rules), sends it through [Do], reads and closes the body of the
    response and decodes it.  The network, [url.Parse], [url.QueryEscape],
    the RFC 3339 formatting of instants and [json.Unmarshal] are inputs of
    the model. *)

(** [?] for the [(value, err)] pairs of the client: the first error
    ends the function. *)
#[global] Instance fetched_bind : MBind fetched := λ A B f m,
  match m with
  | Fetched x => f x
  | FetchError err => FetchError err
  end.

(** The [err] of a function that returns an error only. *)
Definition error_of {A : Type} (m : fetched A) : option error :=
  match m with
  | Fetched _ => None
  | FetchError err => Some err
  end.

(** A Go expression that may panic. *)
Inductive may_panic (A : Type) : Type :=
| Returned (x : A)
| Panicked.
Arguments Returned {A} x.
Arguments Panicked {A}.

(** A Go raw string literal.  The literals below have an apostrophe
    where the source has a double quote; no literal of the source holds an
    apostrophe. *)
Definition raw_quote (c : ascii) : ascii :=
  if bool_decide (c = "039"%char) then "034"%char else c.

Fixpoint raw (s : string) : string :=
  match s with
  | EmptyString => EmptyString
  | String c rest => String (raw_quote c) (raw rest)
  end.

(** [http.Request] and [http.Response], as far as the client uses them:
    [read_body] is the answer of [ioutil.ReadAll(res.Body)] and
    [close_body] the error of [res.Body.Close()]. *)
Record Request : Type := mkRequest {
  req_method : string;
  req_url : string;
  req_header : gmap string (list string);
  req_body : option string
}.

Record Response : Type := mkResponse {
  StatusCode : Z;
  Status : string;
  read_body : fetched string;
  close_body : option error
}.

(** [req.Header.Set(key, value)] for a key in canonical form, as
    ["User-Agent"] and ["Authorization"] are. *)
Definition Header_Set (key value : string) (req : Request) : Request :=
  {| req_method := req_method req; req_url := req_url req;
     req_header := <[key := [value]]> (req_header req);
     req_body := req_body req |}.

Section Client.

(** The error of [url.Parse], the one way [http.NewRequest] fails for
    the methods GET and POST. *)
Variable url_error : string → option error.

(** [url.QueryEscape]. *)
Variable QueryEscape : string → string.

(** [t.Format(time.RFC3339)]. *)
Variable FormatRFC3339 : Time → string.

(** [http.NewRequest(method, url, body)]. *)
Definition NewRequest (method url : string) (body : option string)
    : fetched Request :=
  match url_error url with
  | Some err => FetchError err
  | None =>
      Fetched {| req_method := method; req_url := url; req_header := ∅;
                 req_body := body |}
  end.

(** [strings.HasSuffix]. *)
Definition HasSuffix (s suffix : string) : bool :=
  Nat.leb (String.length suffix) (String.length s)
  && bool_decide (String.substring (String.length s - String.length suffix)
                    (String.length suffix) s = suffix).

(** [strings.Split(s, sep)] for a separator of one byte. *)
Fixpoint Split (s : string) (sep : ascii) : list string :=
  match s with
  | EmptyString => [EmptyString]
  | String c rest =>
      if bool_decide (c = sep) then EmptyString :: Split rest sep
      else match Split rest sep with
           | part :: parts => String c part :: parts
           | [] => [String c EmptyString]
           end
  end.

(** [client.go], lines 19-22. *)
Definition userAgent : string := "forrester-demo-2021".
Definition baseURL : string := "https://gateway.stackpath.com".

(** [Client]: the bearer token; the [http.Client] it wraps is the
    [roundTrip] argument of the functions below, the answer of the network
    to a request. *)
Record Client : Type := mkClient { accessToken : string }.

Record Stack : Type := mkStack {
  stack_ID : string; stack_Slug : string; stack_Name : string
}.

Record Domain : Type := mkDomain { domain_ID : string; domain_Name : string }.

Record Site : Type := mkSite { site_ID : string }.

Record Workload : Type := mkWorkload {
  workload_ID : string; workload_Slug : string; workload_Name : string;
  workload_AnycastIP : string
}.

(** The anonymous struct [CreateWorkload] decodes into (lines 162-173):
    identifier, slug, name and the annotation
    [anycast.platform.stackpath.net/subnets]. *)
Record NewWorkload : Type := mkNewWorkload {
  nw_ID : string; nw_Slug : string; nw_Name : string; nw_Subnets : string
}.

(** [json.Unmarshal] into the struct of each function. *)
Variable Unmarshal_token : string → fetched string.
Variable Unmarshal_stacks : string → fetched (list Stack).
Variable Unmarshal_zones : string → fetched (list Domain).
Variable Unmarshal_workload : string → fetched NewWorkload.
Variable Unmarshal_instances : string → fetched (list Instance).
Variable Unmarshal_site : string → fetched Site.
Variable Unmarshal_domains : string → fetched (list string).
Variable Unmarshal_requests : string → fetched (list WAFRequest).

(** [res.Body.Close()]. *)
Definition closed (res : Response) : fetched unit :=
  match close_body res with
  | Some err => FetchError err
  | None => Fetched tt
  end.

(** [Do] (client.go, lines 71-96). *)
Definition Do (c : Client) (roundTrip : Request → fetched Response)
    (req : Request) : fetched Response :=
  let req := Header_Set "User-Agent" userAgent req in
  let req := Header_Set "Authorization" ("Bearer " +:+ accessToken c) req in
  res ← roundTrip req;
  if bool_decide (300 ≤ StatusCode res) then
    body ← read_body res;
    _ ← closed res;
    FetchError (Status res +:+ ": " +:+ body)
  else Fetched res.

(** The lines every function repeats after [Do]:
    [ioutil.ReadAll(res.Body)], then [res.Body.Close()]. *)
Definition read_all (res : Response) : fetched string :=
  body ← read_body res;
  _ ← closed res;
  Fetched body.

(** [NewClient] (client.go, lines 28-66).  The request goes through [Do]
    of a client without token. *)
Definition NewClient (roundTrip : Request → fetched Response)
    (apiClientID apiClientSecret : string) : fetched Client :=
  let client := {| accessToken := "" |} in
  let reqBody :=
    raw "{
  'grant_type': 'client_credentials',
  'client_id': '" +:+ apiClientID
    +:+ raw "',
  'client_secret': '" +:+ apiClientSecret
    +:+ raw "'
}" in
  req ← NewRequest "POST" (baseURL +:+ "/identity/v1/oauth2/token")
          (Some reqBody);
  res ← Do client roundTrip req;
  body ← read_all res;
  token ← Unmarshal_token body;
  Fetched {| accessToken := token |}.

(** [FindStackBySlug] (lines 117-156); [None] is the [nil] stack. *)
Definition FindStackBySlug (c : Client)
    (roundTrip : Request → fetched Response) (stackSlug : string)
    : fetched (option Stack) :=
  req ← NewRequest "GET"
          (baseURL +:+ "/stack/v1/stacks?page_request.filter="
           +:+ QueryEscape ("slug=" +:+ dquote +:+ stackSlug +:+ dquote))
          None;
  res ← Do c roundTrip req;
  body ← read_all res;
  results ← Unmarshal_stacks body;
  if bool_decide (length results = 0%nat) then Fetched None
  else Fetched (results !! 0%nat).

(** [FindDomainByName] (dns.go, lines 23-64). *)
Definition FindDomainByName (c : Client)
    (roundTrip : Request → fetched Response) (stack : Stack)
    (domain : string) : fetched (option Domain) :=
  req ← NewRequest "GET"
          (baseURL +:+ "/dns/v1/stacks/" +:+ stack_Slug stack
           +:+ "/zones?page_request.filter="
           +:+ QueryEscape ("domain=" +:+ dquote +:+ domain +:+ dquote))
          None;
  res ← Do c roundTrip req;
  body ← read_all res;
  zones ← Unmarshal_zones body;
  if bool_decide (length zones = 0%nat) then Fetched None
  else Fetched (zones !! 0%nat).

(** [SetDNSCNAME] (dns.go, lines 69-93). *)
Definition SetDNSCNAME (c : Client) (roundTrip : Request → fetched Response)
    (stack : Stack) (domain : Domain) (record target : string)
    : option error :=
  let reqBody :=
    raw "{
  'type': 'CNAME',
  'name': '" +:+ record
    +:+ raw "',
  'data': '" +:+ target
    +:+ raw "',
  'ttl': 60
}" in
  error_of (
    req ← NewRequest "POST"
            (baseURL +:+ "/dns/v1/stacks/" +:+ stack_Slug stack
             +:+ "/zones/" +:+ domain_ID domain +:+ "/records")
            (Some reqBody);
    Do c roundTrip req).

(** The body of the request of [CreateWorkload] (compute.go, lines
    48-138). *)
Definition workload_body : string :=
  raw "{
  'workload': {
    'name': 'My compute origin',
    'metadata': {
      'version': '1',
      'annotations': {
        'anycast.platform.stackpath.net': 'true'
      }
    },
    'spec': {
      'networkInterfaces': [
        {
          'network': 'default'
        }
      ],
      'containers': {
        'my-app': {
          'image': 'kennethreitz/httpbin:latest',
          'command': ['gunicorn', '--access-logfile', '-', '-b', '0.0.0.0:80', 'httpbin:app', '-k', 'gevent', '--worker-tmp-dir', '/dev/shm'],
          'ports': {
            'http': {
              'port': 80,
              'enableImplicitNetworkPolicy': true
            }
          },
          'resources': {
            'requests': {
              'cpu': '1',
              'memory': '2Gi'
            }
          }
        }
      }
    },
    'targets': {
      'north-america': {
        'spec': {
          'deploymentScope': 'cityCode',
          'deployments': {
            'minReplicas': 1,
            'maxReplicas': 2,
            'selectors': [
              {
                'key': 'cityCode',
                'operator': 'in',
                'values': [
                  'DFW'
                ]
              }
            ],
            'scaleSettings': {
              'metrics': [
                {
                  'metric': 'cpu',
                  'averageUtilization': '50'
                }
              ]
            }
          }
        }
      },
      'europe': {
        'spec': {
          'deploymentScope': 'cityCode',
          'deployments': {
            'minReplicas': 1,
            'maxReplicas': 2,
            'selectors': [
              {
                'key': 'cityCode',
                'operator': 'in',
                'values': [
                  'FRA', 'AMS'
                ]
              }
            ],
            'scaleSettings': {
              'metrics': [
                {
                  'metric': 'cpu',
                  'averageUtilization': '50'
                }
              ]
            }
          }
        }
      }
    }
  }
}".

(** [CreateWorkload] (compute.go, lines 47-185).  Indexing the result of
    [strings.Split] panics when the index is out of range. *)
Definition CreateWorkload (c : Client)
    (roundTrip : Request → fetched Response) (stack : Stack)
    : may_panic (fetched Workload) :=
  let decoded :=
    req ← NewRequest "POST"
            (baseURL +:+ "/workload/v1/stacks/" +:+ stack_Slug stack
             +:+ "/workloads")
            (Some workload_body);
    res ← Do c roundTrip req;
    body ← read_all res;
    Unmarshal_workload body in
  match decoded with
  | FetchError err => Returned (FetchError err)
  | Fetched newWorkload =>
      match Split (nw_Subnets newWorkload) "/" !! 0%nat with
      | Some ip =>
          Returned (Fetched {| workload_ID := nw_ID newWorkload;
                               workload_Slug := nw_Slug newWorkload;
                               workload_Name := nw_Name newWorkload;
                               workload_AnycastIP := ip |})
      | None => Panicked
      end
  end.

(** [GetInstances] (compute.go, lines 191-224). *)
Definition GetInstances (c : Client) (roundTrip : Request → fetched Response)
    (stack : Stack) (workload : Workload) : fetched (list Instance) :=
  req ← NewRequest "GET"
          (baseURL +:+ "/workload/v1/stacks/" +:+ stack_Slug stack
           +:+ "/workloads/" +:+ workload_Slug workload +:+ "/instances")
          None;
  res ← Do c roundTrip req;
  resBody ← read_all res;
  Unmarshal_instances resBody.

(** [GetInstanceLogs] (compute.go, lines 230-262): the body as it
    comes. *)
Definition GetInstanceLogs (c : Client)
    (roundTrip : Request → fetched Response) (stack : Stack)
    (workload : Workload) (instance : Instance) (since : Time)
    : fetched string :=
  req ← NewRequest "GET"
          (baseURL +:+ "/workload/v1/stacks/" +:+ stack_Slug stack
           +:+ "/workloads/" +:+ workload_Slug workload
           +:+ "/instances/" +:+ Name instance
           +:+ "/logs?timestamps=true&since_time=" +:+ FormatRFC3339 since)
          None;
  res ← Do c roundTrip req;
  read_all res.

(** [CreateSiteDelivery] (delivery.go, lines 37-86). *)
Definition CreateSiteDelivery (c : Client)
    (roundTrip : Request → fetched Response) (stack : Stack)
    (originIP domainName : string) : fetched Site :=
  let reqBody :=
    raw "{
  'domain': '" +:+ domainName
    +:+ raw "',
  'origin': {
    'path': '/',
    'hostname': '" +:+ originIP
    +:+ raw "',
    'port': 80
  },
  'features': ['CDN', 'WAF'],
  'configuration': {
    'originPullProtocol': {
      'protocol': 'http'
    }
  }
}" in
  req ← NewRequest "POST"
          (baseURL +:+ "/delivery/v1/stacks/" +:+ stack_Slug stack
           +:+ "/sites")
          (Some reqBody);
  res ← Do c roundTrip req;
  body ← read_all res;
  Unmarshal_site body.

(** Lines 126-133 of delivery.go: the first delivery domain on
    [stackpathcdn.com], the empty string when there is none. *)
Fixpoint first_cdn_domain (results : list string) : string :=
  match results with
  | [] => ""
  | result :: rest =>
      if HasSuffix result ".stackpathcdn.com" then result
      else first_cdn_domain rest
  end.

(** [FindSiteDeliveryDomain] (delivery.go, lines 93-134). *)
Definition FindSiteDeliveryDomain (c : Client)
    (roundTrip : Request → fetched Response) (stack : Stack) (site : Site)
    : fetched string :=
  req ← NewRequest "GET"
          (baseURL +:+ "/delivery/v1/stacks/" +:+ stack_Slug stack
           +:+ "/sites/" +:+ site_ID site +:+ "/delivery_domains")
          None;
  res ← Do c roundTrip req;
  body ← read_all res;
  results ← Unmarshal_domains body;
  Fetched (first_cdn_domain results).

(** [RequestFreeSSLCert] (delivery.go, lines 140-159). *)
Definition RequestFreeSSLCert (c : Client)
    (roundTrip : Request → fetched Response) (stack : Stack) (site : Site)
    : option error :=
  error_of (
    req ← NewRequest "POST"
            (baseURL +:+ "/cdn/v1/stacks/" +:+ stack_Slug stack
             +:+ "/sites/" +:+ site_ID site +:+ "/certificates/request")
            (Some (raw "{
  'verificationMethod': 'DNS'
}"));
    Do c roundTrip req).

(** The bodies of the two requests of [CreateDemoWAFRules]. *)
Definition block_rule_body : string :=
  raw "{
  'name': 'block access to blockme',
  'description': 'A simple path block to demo WAF capabilities',
  'conditions': [
    {
      'url': {
        'url': '/blockme',
        'exactMatch': true
      }
    }
  ],
  'action': 'BLOCK',
  'enabled': true
}".

Definition allow_rule_body : string :=
  raw "{
  'name': 'allow access to anything',
  'description': 'Allow access to a path, regardless of other rules',
  'conditions': [
    {
      'url': {
        'url': '/anything',
        'exactMatch': true
      }
    }
  ],
  'action': 'ALLOW',
  'enabled': true
}".

(** [CreateDemoWAFRules] (lines 17-77 of the WAF file). *)
Definition CreateDemoWAFRules (c : Client)
    (roundTrip : Request → fetched Response) (stack : Stack) (site : Site)
    : option error :=
  let url :=
    baseURL +:+ "/waf/v1/stacks/" +:+ stack_Slug stack
    +:+ "/sites/" +:+ site_ID site +:+ "/rules" in
  error_of (
    req ← NewRequest "POST" url (Some block_rule_body);
    _ ← Do c roundTrip req;
    req ← NewRequest "POST" url (Some allow_rule_body);
    Do c roundTrip req).

(** [GetWAFRequests] (lines 82-120 of the WAF file). *)
Definition GetWAFRequests (c : Client)
    (roundTrip : Request → fetched Response) (stack : Stack) (site : Site)
    (since : Time) : fetched (list WAFRequest) :=
  req ← NewRequest "GET"
          (baseURL +:+ "/waf/v1/stacks/" +:+ stack_Slug stack
           +:+ "/sites/" +:+ site_ID site +:+ "/requests?start_date="
           +:+ FormatRFC3339 since)
          None;
  res ← Do c roundTrip req;
  body ← read_all res;
  Unmarshal_requests body.

(** The request as [Do] hands it to the network. *)
Definition as_sent (c : Client) (req : Request) : Request :=
  Header_Set "Authorization" ("Bearer " +:+ accessToken c)
    (Header_Set "User-Agent" userAgent req).

(** The network answered [req] with a status below 300, and the body of
    the response was read as [body] and closed. *)
Definition answered (c : Client) (roundTrip : Request → fetched Response)
    (req : Request) (body : string) : Prop :=
  ∃ res, roundTrip (as_sent c req) = Fetched res
         ∧ StatusCode res < 300
         ∧ read_body res = Fetched body
         ∧ close_body res = None.

(** [s] ends with [suffix]. *)
Definition ends_with (s suffix : string) : Prop := ∃ p, s = p +:+ suffix.


End Client.

(** ** The provisioning steps of [main.go]

    The functions [main] calls before it starts the monitors.  They run
    in a small monad over the state of the process: the package-level
    variables of lines 24-31, what was written to STDOUT and read from
    STDIN, the calls made to the API client and the number of readings of
    the clock so far.  The answers of the client and the readings of the
    clock are inputs.  The frames of the spinner are no part of the
    output. *)

(** The constants of lines 15-21, which the user of the demo sets. *)
Record Config : Type := mkConfig {
  APIClientID : string;
  APIClientSecret : string;
  StackSlug : string;
  DomainName : string;
  ProjectSubDomain : string
}.

(** What the process does on STDOUT and STDIN: a [fmt] call, the [Printf]
    of an elapsed [time.Duration] (in nanoseconds), and a
    [ReadString] whose result is dropped. *)
Inductive Event : Type :=
| Wrote (l : Line)
| WroteElapsed (format : string) (d : Z)
| ReadString (delim : ascii).

(** A call to the API client, with its arguments. *)
Inductive Call : Type :=
| CallNewClient (apiClientID apiClientSecret : string)
| CallFindStackBySlug (stackSlug : string)
| CallFindDomainByName (stack : Stack) (domain : string)
| CallCreateWorkload (stack : Stack)
| CallCreateSiteDelivery (stack : Stack) (originIP domainName : string)
| CallGetInstances (stack : Stack) (workload : Workload)
| CallFindSiteDeliveryDomain (stack : Stack) (site : Site)
| CallSetDNSCNAME (stack : Stack) (domain : Domain) (record target : string)
| CallRequestFreeSSLCert (stack : Stack) (site : Site)
| CallCreateDemoWAFRules (stack : Stack) (site : Site).

(** The answers of the API client to the calls of one run, the polls of
    [GetInstances] in the order they are made, and the successive readings
    of [time.Now()]. *)
Record World : Type := mkWorld {
  answer_NewClient : fetched Client;
  answer_FindStackBySlug : fetched (option Stack);
  answer_FindDomainByName : fetched (option Domain);
  answer_CreateWorkload : fetched Workload;
  answer_CreateSiteDelivery : fetched Site;
  answers_GetInstances : list (fetched (list Instance));
  answer_FindSiteDeliveryDomain : fetched string;
  answer_SetDNSCNAME : option error;
  answer_RequestFreeSSLCert : option error;
  answer_CreateDemoWAFRules : option error;
  clock : nat → Time
}.

(** The package-level variables of lines 24-31; [None] is a [nil]
    pointer. *)
Record Globals : Type := mkGlobals {
  client : option Client;
  stack : option Stack;
  domain : option Domain;
  workload : option Workload;
  site : option Site;
  deliveryDomain : string
}.

Record Run : Type := mkRun {
  globals : Globals;
  written : list Event;
  called : list Call;
  ticks : nat
}.

(** How a function leaves: it returns, the process ends through
    [os.Exit(1)], the bring-up loop is still polling when the polls of the
    world are used up, or a [nil] pointer is dereferenced. *)
Inductive ended (A : Type) : Type :=
| Returns (a : A) (r : Run)
| Exits (r : Run)
| StillPolling (r : Run)
| NilPanic (r : Run).
Arguments Returns {A} a r.
Arguments Exits {A} r.
Arguments StillPolling {A} r.
Arguments NilPanic {A} r.

Definition run_of {A : Type} (e : ended A) : Run :=
  match e with
  | Returns _ r | Exits r | StillPolling r | NilPanic r => r
  end.

Definition M (A : Type) : Type := Run → ended A.

#[global] Instance M_ret : MRet M := λ A a r, Returns a r.

#[global] Instance M_bind : MBind M := λ A B k m r,
  match m r with
  | Returns a r1 => k a r1
  | Exits r1 => Exits r1
  | StillPolling r1 => StillPolling r1
  | NilPanic r1 => NilPanic r1
  end.

Definition write (e : Event) : M unit := λ r,
  Returns tt {| globals := globals r; written := written r ++ [e];
                called := called r; ticks := ticks r |}.

Definition write_lines (out : list Line) : M unit := λ r,
  Returns tt {| globals := globals r; written := written r ++ (Wrote <$> out);
                called := called r; ticks := ticks r |}.

Definition call (c : Call) : M unit := λ r,
  Returns tt {| globals := globals r; written := written r;
                called := called r ++ [c]; ticks := ticks r |}.

(** [time.Now()]. *)
Definition Now (w : World) : M Time := λ r,
  Returns (clock w (ticks r))
    {| globals := globals r; written := written r; called := called r;
       ticks := S (ticks r) |}.

Definition set_globals (f : Globals → Globals) : M unit := λ r,
  Returns tt {| globals := f (globals r); written := written r;
                called := called r; ticks := ticks r |}.

(** Reading a package-level pointer that the client dereferences. *)
Definition deref {A : Type} (field : Globals → option A) : M A := λ r,
  match field (globals r) with
  | Some x => Returns x r
  | None => NilPanic r
  end.

(** [donef] (lines 444-449), with its [os.Exit(1)]. *)
Definition exit_donef {A : Type} (format : string) (a : list Arg) : M A := λ r,
  Exits {| globals := globals r;
           written := written r ++ (Wrote <$> donef format a);
           called := called r; ticks := ticks r |}.

(** [startSpinner] (lines 422-428): the reading of the clock it
    returns. *)
Definition startSpinner (w : World) (prefix : string) : M Time := Now w.

(** [stopSpinner] (lines 432-441). *)
Definition stopSpinner (w : World) (t : Time) (message : string)
    (pauseAtTheEnd : bool) : M unit :=
  _ ← write (Wrote (Printf (newline +:+ "| %s" +:+ newline) [Str message]));
  t1 ← Now w;
  _ ← write (WroteElapsed ("└ Took %s" +:+ newline +:+ newline) (t1 - t));
  if pauseAtTheEnd then
    _ ← write (Wrote (Println [Str "Press [Enter] to continue."]));
    write (ReadString "010")
  else mret tt.

(** [authenticateToStackPath] (lines 111-121). *)
Definition authenticateToStackPath (cfg : Config) (w : World) : M unit :=
  t ← startSpinner w "Authenticating to StackPath";
  _ ← call (CallNewClient (APIClientID cfg) (APIClientSecret cfg));
  match answer_NewClient w with
  | FetchError err =>
      _ ← set_globals (λ g, {| client := None; stack := stack g;
             domain := domain g; workload := workload g; site := site g;
             deliveryDomain := deliveryDomain g |});
      exit_donef "Error Authenticating to StackPath: %s" [Str err]
  | Fetched c =>
      _ ← set_globals (λ g, {| client := Some c; stack := stack g;
             domain := domain g; workload := workload g; site := site g;
             deliveryDomain := deliveryDomain g |});
      stopSpinner w t "Done" false
  end.

(** [findStack] (lines 125-139). *)
Definition findStack (cfg : Config) (w : World) : M unit :=
  t ← startSpinner w "Finding the project stack";
  _ ← deref client;
  _ ← call (CallFindStackBySlug (StackSlug cfg));
  match answer_FindStackBySlug w with
  | FetchError err =>
      _ ← set_globals (λ g, {| client := client g; stack := None;
             domain := domain g; workload := workload g; site := site g;
             deliveryDomain := deliveryDomain g |});
      exit_donef "Error locating stack: %s" [Str err]
  | Fetched found =>
      _ ← set_globals (λ g, {| client := client g; stack := found;
             domain := domain g; workload := workload g; site := site g;
             deliveryDomain := deliveryDomain g |});
      match found with
      | None =>
          _ ← stopSpinner w t "Not found" false;
          exit_donef ("Stack " +:+ dquote +:+ "%s" +:+ dquote
                      +:+ " was not found") [Str (StackSlug cfg)]
      | Some s =>
          stopSpinner w t
            ("Done: found stack " +:+ dquote +:+ stack_Name s +:+ dquote
             +:+ " (slug: " +:+ stack_Slug s +:+ ")") false
      end
  end.

(** [findDomainOnStack] (lines 143-157). *)
Definition findDomainOnStack (cfg : Config) (w : World) : M unit :=
  t ← startSpinner w ("Locating the " +:+ dquote +:+ DomainName cfg
                      +:+ dquote +:+ " DNS zone");
  _ ← deref client;
  s ← deref stack;
  _ ← call (CallFindDomainByName s (DomainName cfg));
  match answer_FindDomainByName w with
  | FetchError err =>
      _ ← set_globals (λ g, {| client := client g; stack := stack g;
             domain := None; workload := workload g; site := site g;
             deliveryDomain := deliveryDomain g |});
      exit_donef "Error locating DNS Zone: %s" [Str err]
  | Fetched found =>
      _ ← set_globals (λ g, {| client := client g; stack := stack g;
             domain := found; workload := workload g; site := site g;
             deliveryDomain := deliveryDomain g |});
      match found with
      | None =>
          _ ← stopSpinner w t "Not found" false;
          exit_donef ("DNS zone " +:+ dquote +:+ "%s" +:+ dquote
                      +:+ " was not found") [Str (DomainName cfg)]
      | Some d =>
          stopSpinner w t
            ("Done: found DNS zone " +:+ dquote +:+ domain_Name d +:+ dquote
             +:+ " (ID: " +:+ domain_ID d +:+ ")") false
      end
  end.

(** [provisionComputeWorkload] (lines 161-176). *)
Definition provisionComputeWorkload (w : World) : M unit :=
  t ← startSpinner w "Creating compute workload";
  _ ← deref client;
  s ← deref stack;
  _ ← call (CallCreateWorkload s);
  match answer_CreateWorkload w with
  | FetchError err =>
      _ ← set_globals (λ g, {| client := client g; stack := stack g;
             domain := domain g; workload := None; site := site g;
             deliveryDomain := deliveryDomain g |});
      exit_donef "Error creating compute workload: %s" [Str err]
  | Fetched wl =>
      _ ← set_globals (λ g, {| client := client g; stack := stack g;
             domain := domain g; workload := Some wl; site := site g;
             deliveryDomain := deliveryDomain g |});
      stopSpinner w t
        ("Done: workload " +:+ dquote +:+ workload_Name wl +:+ dquote
         +:+ " created, anycast IP: " +:+ workload_AnycastIP wl) true
  end.

(** [provisionSite] (lines 180-190). *)
Definition provisionSite (cfg : Config) (w : World) : M unit :=
  t ← startSpinner w
        "Creating CDN and WAF service in front of the Edge Compute origin";
  wl ← deref workload;
  _ ← deref client;
  s ← deref stack;
  _ ← call (CallCreateSiteDelivery s (workload_AnycastIP wl)
              (ProjectSubDomain cfg +:+ "." +:+ DomainName cfg));
  match answer_CreateSiteDelivery w with
  | FetchError err =>
      _ ← set_globals (λ g, {| client := client g; stack := stack g;
             domain := domain g; workload := workload g; site := None;
             deliveryDomain := deliveryDomain g |});
      exit_donef "Error creating CDN and WAF service: %s" [Str err]
  | Fetched st =>
      _ ← set_globals (λ g, {| client := client g; stack := stack g;
             domain := domain g; workload := workload g; site := Some st;
             deliveryDomain := deliveryDomain g |});
      stopSpinner w t
        ("Done: site " +:+ dquote +:+ site_ID st +:+ dquote +:+ " created")
        true
  end.

(** [findDeliveryDomain] (lines 255-265). *)
Definition findDeliveryDomain (w : World) : M unit :=
  t ← startSpinner w "Locating the site's delivery domain";
  _ ← deref client;
  s ← deref stack;
  st ← deref site;
  _ ← call (CallFindSiteDeliveryDomain s st);
  match answer_FindSiteDeliveryDomain w with
  | FetchError err =>
      _ ← set_globals (λ g, {| client := client g; stack := stack g;
             domain := domain g; workload := workload g; site := site g;
             deliveryDomain := "" |});
      exit_donef "Error locating the site's delivery domain: %s" [Str err]
  | Fetched d =>
      _ ← set_globals (λ g, {| client := client g; stack := stack g;
             domain := domain g; workload := workload g; site := site g;
             deliveryDomain := d |});
      stopSpinner w t
        ("Done: found the delivery domain " +:+ dquote +:+ d +:+ dquote) true
  end.

(** [setDNSCNAMERecord] (lines 269-278). *)
Definition setDNSCNAMERecord (cfg : Config) (w : World) : M unit :=
  t ← startSpinner w
        ("Creating the project DNS record: " +:+ dquote
         +:+ ProjectSubDomain cfg +:+ "." +:+ DomainName cfg +:+ dquote);
  _ ← deref client;
  s ← deref stack;
  d ← deref domain;
  target ← (λ r, Returns (deliveryDomain (globals r)) r);
  _ ← call (CallSetDNSCNAME s d (ProjectSubDomain cfg) target);
  match answer_SetDNSCNAME w with
  | Some err => exit_donef "Error creating project DNS CNAME: %s" [Str err]
  | None => stopSpinner w t "Done" true
  end.

(** [provisionSSLCertificate] (lines 281-290). *)
Definition provisionSSLCertificate (w : World) : M unit :=
  t ← startSpinner w "Creating an SSL certificate";
  _ ← deref client;
  s ← deref stack;
  st ← deref site;
  _ ← call (CallRequestFreeSSLCert s st);
  match answer_RequestFreeSSLCert w with
  | Some err => exit_donef "Error creating an SSL certificate: %s" [Str err]
  | None => stopSpinner w t "Done" true
  end.

(** [createWAFRules] (lines 293-302). *)
Definition createWAFRules (w : World) : M unit :=
  t ← startSpinner w "Creating custom WAF rules";
  _ ← deref client;
  s ← deref stack;
  st ← deref site;
  _ ← call (CallCreateDemoWAFRules s st);
  match answer_CreateDemoWAFRules w with
  | Some err => exit_donef "Error creating custom WAF rule: %s" [Str err]
  | None => stopSpinner w t "Done" true
  end.

(** The texts [main] prints with [fmt.Println] (lines 38-60, 70-71,
    76-77 and 80-81). *)
Definition banner : string :=
  "
StackPath Platform Demo
=======================

Welcome to our demo! 

This program provisions an Edge Compute container workload with a diagnostic web 
application in multiple cities with auto-scaling, puts the app behind 
StackPath's CDN and WAF, provisions a DNS entry for it, adds demonstration WAF 
rules, then sets up an auto-renewing SSL certificate for the final app.

After the app is provisioned, this program will monitor the WAF for security 
events and monitor Edge Compute logs for web app requests and new instance start 
up and tear down. 

The only things that exist prior to this are the project's stack and a 
registered domain name with an empty zone provisioned on our DNS infrastructure. 
This program was written from scratch and uses the StackPath REST API for all 
interaction with StackPath.

This is a live demo. Fingers crossed, everyone!

Press [Enter] to continue.".

Definition checking_requirements : string :=
  "Checking requirements
---------------------".

Definition requirements_met : string :=
  "Requirements met!
Press [Enter] to continue.".

Definition deploying : string :=
  "Deploying the application
-------------------------".

(** The process as [main] finds it: every pointer [nil], nothing written
    or called. *)
Definition start : Run :=
  {| globals := {| client := None; stack := None; domain := None;
                   workload := None; site := None; deliveryDomain := "" |};
     written := []; called := []; ticks := 0 |}.

Section Monitors.

(** [strings.ToLower]. *)
Variable ToLower : string → string.

(** The lines [bufio.NewScanner(strings.NewReader(logs))] yields, one per
    successful [scanner.Scan()], each read with [scanner.Text()]. *)
Variable ScanLines : string → list string.

(** ** Bring-up instance monitor: [waitForComputeWorkload] *)

(** The guard of line 227,
    [!found || instanceStatus[instance.Name] != instance.Phase]; a Go map
    read at a missing key gives the empty string. *)
Definition status_differs (instanceStatus : gmap string string)
    (instance : Instance) : bool :=
  let found := bool_decide (is_Some (instanceStatus !! Name instance)) in
  negb found
  || negb (bool_decide (default "" (instanceStatus !! Name instance)
                        = Phase instance)).

(** Lines 225-234: the status part of the body of the [range] loop, for
    the instance at index [i]. *)
Definition wait_status (i : nat) (instance : Instance)
    (instanceStatus : gmap string string) : gmap string string * list Line :=
  if status_differs instanceStatus instance then
    (<[Name instance := Phase instance]> instanceStatus,
     (if bool_decide (i = 0%nat) then [Println []] else [])
     ++ [Printf fmt_instance_is
           [Str (Name instance); Str (ToLower (Phase instance))]])
  else (instanceStatus, []).

(** Lines 224-239: the [range] loop over the fetched instances, started
    at index [i] with the current value of [allInstancesRunning]. *)
Fixpoint wait_range (i : nat) (instances : list Instance)
    (instanceStatus : gmap string string) (allInstancesRunning : bool)
    : gmap string string * bool * list Line :=
  match instances with
  | [] => (instanceStatus, allInstancesRunning, [])
  | instance :: rest =>
      let '(status1, out1) := wait_status i instance instanceStatus in
      let running1 :=
        if bool_decide (Phase instance ≠ "RUNNING") then false
        else allInstancesRunning in
      let '(status2, running2, out2) := wait_range (S i) rest status1 running1 in
      (status2, running2, out1 ++ out2)
  end.

(** Lines 212-244: one cycle of the [for] loop.  The spinner and the
    sleep write no line and keep no state. *)
Definition wait_cycle (instanceStatus : gmap string string)
    (fetch : fetched (list Instance))
    : outcome (gmap string string) * list Line :=
  match fetch with
  | FetchError err =>
      (Exit instanceStatus,
       donef "Error querying instance status: %s" [Str err])
  | Fetched instances =>
      if bool_decide (length instances = 0%nat) then
        (Continue instanceStatus, [])
      else
        let '(status1, allInstancesRunning, out) :=
          wait_range 0 instances instanceStatus true in
        if allInstancesRunning && bool_decide (3 ≤ length instances)%nat
        then (Break status1, out)
        else (Continue status1, out)
  end.

(** The [for] loop of lines 211-245 over the answers of successive
    [GetInstances] calls.  The third component counts the polls made. *)
Fixpoint wait_loop (instanceStatus : gmap string string)
    (polls : list (fetched (list Instance)))
    : outcome (gmap string string) * list Line * nat :=
  match polls with
  | [] => (Continue instanceStatus, [], 0%nat)
  | fetch :: rest =>
      match wait_cycle instanceStatus fetch with
      | (Continue status1, out) =>
          let '(o, out', n) := wait_loop status1 rest in
          (o, out ++ out', S n)
      | (o, out) => (o, out, 1%nat)
      end
  end.

(** The loop of [waitForComputeWorkload], started from the empty map of
    line 205.  The banner of line 198, the frames of the spinner and the
    closing lines 247-249 are written outside the loop and are no part of
    its output here. *)
Definition waitForComputeWorkload (polls : list (fetched (list Instance)))
    : outcome (gmap string string) * list Line * nat :=
  wait_loop ∅ polls.

(** ** WAF event monitor: [displayWAFRequests] *)

(** [time.Hour]. *)
Definition Hour : Z := 3600 * Second.

(** Lines 316-331: the line printed for one request. *)
Definition waf_line (request : WAFRequest) : Line :=
  let fullRuleName :=
    if bool_decide (RuleName request ≠ "") then ": " +:+ RuleName request
    else "" in
  Printf fmt_waf
    [Str (Action request); Str fullRuleName; Tm (RequestTime request);
     Str (Method request); Str (Path request); Str (ClientIP request);
     Str (Country request); Str (UserAgent request)].

(** Lines 315-336: the [range] loop over the fetched requests, at index
    [i] of a slice of length [len]. *)
Fixpoint waf_range (len i : Z) (requests : list WAFRequest)
    (mostRecentRequestTime : Time) : Time * list Line :=
  match requests with
  | [] => (mostRecentRequestTime, [])
  | request :: rest =>
      let time1 :=
        if bool_decide (i = len - 1) then Add (RequestTime request) Second
        else mostRecentRequestTime in
      let '(time2, out) := waf_range len (i + 1) rest time1 in
      (time2, waf_line request :: out)
  end.

(** Lines 310-338: one cycle of the [for] loop. *)
Definition waf_cycle (mostRecentRequestTime : Time)
    (fetch : fetched (list WAFRequest)) : outcome Time * list Line :=
  match fetch with
  | FetchError err =>
      (Exit mostRecentRequestTime,
       donef "Error getting WAF requests: %s" [Str err])
  | Fetched requests =>
      let '(time1, out) :=
        waf_range (Z.of_nat (length requests)) 0 requests
          mostRecentRequestTime in
      (Continue time1, out)
  end.

(** The [for] loop of lines 309-339 over the answers of successive
    [GetWAFRequests] calls; each call is passed the watermark the loop
    holds at that moment. *)
Fixpoint waf_loop (mostRecentRequestTime : Time)
    (polls : list (fetched (list WAFRequest)))
    : outcome Time * list Line * nat :=
  match polls with
  | [] => (Continue mostRecentRequestTime, [], 0%nat)
  | fetch :: rest =>
      match waf_cycle mostRecentRequestTime fetch with
      | (Continue time1, out) =>
          let '(o, out', n) := waf_loop time1 rest in
          (o, out ++ out', S n)
      | (o, out) => (o, out, 1%nat)
      end
  end.

(** Line 307: the first watermark is thirty days before [time.Now()]. *)
Definition displayWAFRequests (now : Time)
    (polls : list (fetched (list WAFRequest)))
    : outcome Time * list Line * nat :=
  waf_loop (Add now (Hour * 24 * -30)) polls.

(** ** Continuous instance monitor: [displayInstanceLogs] *)

(** The variables of lines 345-347: [mostRecentRequestTime],
    [instanceStatus] and [i]. *)
Record LogsState : Type := mkLogsState {
  st_time : Time;
  st_status : gmap string string;
  st_i : Z
}.

(** What the outside world answers during one cycle: the answer of
    [GetInstances], the answers of the calls of [GetInstanceLogs] the
    cycle makes, the reading of [time.Now()] on line 413, and the order in
    which [range] visits the keys of a map (Go leaves it unspecified).
    Line 377 makes one call of [GetInstanceLogs] for every entry of the
    fetched list: [logs_answer env n] is the answer to call number [n] of
    the cycle, counted from 0, for the instance and the [since] it is
    made with.  Two calls of one cycle may answer differently, also when
    they are made for the same instance. *)
Record LogsEnv : Type := mkLogsEnv {
  listing : fetched (list Instance);
  logs_answer : nat → Instance → Time → fetched string;
  now : Time;
  range_order : gmap string string → list string
}.

(** The world once the first call of [GetInstanceLogs] of the cycle has
    been answered: the calls that are still to come. *)
Definition later_calls (env : LogsEnv) : LogsEnv :=
  {| listing := listing env;
     logs_answer := λ n, logs_answer env (S n);
     now := now env;
     range_order := range_order env |}.

(** [range] over a map visits every key once. *)
Definition range_ok (env : LogsEnv) : Prop :=
  ∀ m : gmap string string, range_order env m ≡ₚ (map_to_list m).*1.

(** Lines 360-374: the status part of the body of the [range] loop. *)
Definition logs_status (i : Z) (instance : Instance)
    (instanceStatus : gmap string string) : gmap string string * list Line :=
  if bool_decide (i = 0) then
    (<[Name instance := Phase instance]> instanceStatus, [])
  else
    match instanceStatus !! Name instance with
    | None =>
        (<[Name instance := Phase instance]> instanceStatus,
         [Printf fmt_new_instance
            [Str (Name instance); Str (ToLower (Phase instance))]])
    | Some phase =>
        if bool_decide (phase ≠ Phase instance) then
          (<[Name instance := Phase instance]> instanceStatus,
           [Printf fmt_instance_now
              [Str (Name instance); Str (ToLower (Phase instance))]])
        else (instanceStatus, [])
    end.

(** Lines 382-386: one line per scanned line of the logs. *)
Definition log_lines (instance : Instance) (logs : string) : list Line :=
  (λ text, Printf fmt_log_line [Str (Name instance); Str text])
    <$> ScanLines logs.

(** Lines 355-387: the [range] loop over the fetched instances. *)
Fixpoint logs_range (env : LogsEnv) (mostRecentRequestTime : Time) (i : Z)
    (instances : list Instance) (instanceStatus : gmap string string)
    : outcome (gmap string string) * list Line :=
  match instances with
  | [] => (Continue instanceStatus, [])
  | instance :: rest =>
      let '(status1, out1) := logs_status i instance instanceStatus in
      match logs_answer env 0%nat instance mostRecentRequestTime with
      | FetchError err =>
          (Exit status1,
           out1 ++ donef "Error querying %s instance logs: %s"
                     [Str (Name instance); Str err])
      | Fetched logs =>
          let '(o, out3) :=
            logs_range (later_calls env) mostRecentRequestTime i rest
              status1 in
          (o, out1 ++ log_lines instance logs ++ out3)
      end
  end.

(** Lines 395-402: the search for [checkName] among the fetched
    instances. *)
Fixpoint find_instance (checkName : string) (instances : list Instance)
    (found : bool) (newInstanceStatus : gmap string string)
    : bool * gmap string string :=
  match instances with
  | [] => (found, newInstanceStatus)
  | instance :: rest =>
      if bool_decide (checkName = Name instance) then
        find_instance checkName rest true
          (<[checkName := Phase instance]> newInstanceStatus)
      else find_instance checkName rest found newInstanceStatus
  end.

(** Lines 394-407: the [range] loop over the keys of [instanceStatus],
    visited in the order [keys]. *)
Fixpoint went_away (keys : list string) (instances : list Instance)
    (newInstanceStatus : gmap string string)
    : gmap string string * list Line :=
  match keys with
  | [] => (newInstanceStatus, [])
  | checkName :: rest =>
      let '(found, status1) :=
        find_instance checkName instances false newInstanceStatus in
      let out1 :=
        if found then [] else [Printf fmt_went_away [Str checkName]] in
      let '(status2, out2) := went_away rest instances status1 in
      (status2, out1 ++ out2)
  end.

(** Lines 350-414: one cycle of the [for] loop. *)
Definition logs_cycle (s : LogsState) (env : LogsEnv)
    : outcome LogsState * list Line :=
  match listing env with
  | FetchError err =>
      (Exit s, donef "Error querying workload instances: %s" [Str err])
  | Fetched instances =>
      match logs_range env (st_time s) (st_i s) instances (st_status s) with
      | (Continue status1, out) =>
          let '(status2, out2) :=
            if bool_decide (st_i s ≠ 0) then
              went_away (range_order env status1) instances ∅
            else (status1, []) in
          (Continue {| st_time := now env;
                       st_status := status2;
                       st_i := wrap64 (st_i s + 1) |},
           out ++ out2)
      | (o, out) =>
          (Exit {| st_time := st_time s;
                   st_status := state_of o;
                   st_i := st_i s |},
           out)
      end
  end.

(** The [for] loop of lines 349-415 over successive cycles. *)
Fixpoint logs_loop (s : LogsState) (envs : list LogsEnv)
    : outcome LogsState * list Line * nat :=
  match envs with
  | [] => (Continue s, [], 0%nat)
  | env :: rest =>
      match logs_cycle s env with
      | (Continue s1, out) =>
          let '(o, out', n) := logs_loop s1 rest in
          (o, out ++ out', S n)
      | (o, out) => (o, out, 1%nat)
      end
  end.

(** Lines 345-347: the state [displayInstanceLogs] starts from. *)
Definition logs_start (now0 : Time) : LogsState :=
  {| st_time := Add now0 (Hour * 24 * -30); st_status := ∅; st_i := 0 |}.

Definition displayInstanceLogs (now0 : Time) (envs : list LogsEnv)
    : outcome LogsState * list Line * nat :=
  logs_loop (logs_start now0) envs.

(** ** Notions the statements use *)

(** The phase of the last instance of [instances] named [key]. *)
Fixpoint last_phase (instances : list Instance) (key : string)
    : option string :=
  match instances with
  | [] => None
  | instance :: rest =>
      match last_phase rest key with
      | Some p => Some p
      | None =>
          if bool_decide (Name instance = key) then Some (Phase instance)
          else None
      end
  end.

(** The name is a key of the fetched list: instances of one name carry
    one phase.  A list without two instances of the same name is keyed. *)
Definition keyed (instances : list Instance) : Prop :=
  ∀ a b, a ∈ instances → b ∈ instances → Name a = Name b → Phase a = Phase b.

(** The recorded phase of [instance] is missing or differs from the
    fetched one. *)
Definition recorded_differs (instanceStatus : gmap string string)
    (instance : Instance) : Prop :=
  instanceStatus !! Name instance = None
  ∨ ∃ p, instanceStatus !! Name instance = Some p ∧ p ≠ Phase instance.

(** At least three instances, all of them in the phase [RUNNING]. *)
Definition all_running (instances : list Instance) : Prop :=
  (3 ≤ length instances)%nat ∧ Forall (λ x, Phase x = "RUNNING") instances.

(** The four error reports of the monitors are no transition lines. *)
Definition error_formats : list string :=
  ["Error querying instance status: %s";
   "Error getting WAF requests: %s";
   "Error querying workload instances: %s";
   "Error querying %s instance logs: %s"].

(** The watermark the loop holds after a cycle that fetched [requests],
    and after a run of such cycles. *)
Definition next_watermark (w : Time) (requests : list WAFRequest) : Time :=
  state_of (waf_cycle w (Fetched requests)).1.

Definition watermark_after (w : Time) (polls : list (list WAFRequest)) : Time :=
  foldl next_watermark w polls.

(** What the monitor expects of [GetWAFRequests]: only requests at or
    after the watermark it was passed, in ascending time order. *)
Definition poll_ok (w : Time) (requests : list WAFRequest) : Prop :=
  Forall (λ r, w ≤ RequestTime r) requests
  ∧ StronglySorted (λ a b, RequestTime a ≤ RequestTime b) requests.

(** Every poll of a run meets that expectation for the watermark the
    loop holds when it is made. *)
Fixpoint polls_ok (w : Time) (polls : list (list WAFRequest)) : Prop :=
  match polls with
  | [] => True
  | requests :: rest =>
      poll_ok w requests ∧ polls_ok (next_watermark w requests) rest
  end.

(** The line [went_away] prints for a key. *)
Definition went_away_line (k : string) : Line :=
  Printf fmt_went_away [Str k].

(** ** Sample inputs *)

Definition sample_instance (name phase : string) : Instance :=
  {| ID := "i-" +:+ name; Name := name; Phase := phase;
     IPAddress := "10.0.0.1"; ExternalIPAddress := "192.0.2.1" |}.

Definition sample_request (t : Time) : WAFRequest :=
  {| WAFID := "r"; Action := "BLOCK"; Method := "GET"; Path := "/blockme";
     ClientIP := "198.51.100.7"; Country := "NL"; UserAgent := "curl/8";
     RuleName := "block access to blockme"; RequestTime := t |}.

(** One admissible order of [range] over a map. *)
Definition sample_order (m : gmap string string) : list string :=
  (map_to_list m).*1.

(** A cycle in which [GetInstances] answers [l] and every instance has
    one line of logs. *)
Definition sample_env (l : list Instance) : LogsEnv :=
  {| listing := Fetched l;
     logs_answer := λ _ _ _, Fetched "GET /get 200";
     now := 1700000000 * Second;
     range_order := sample_order |}.

(** ** [waitForComputeWorkload] and [main] *)

(** The bring-up loop (lines 211-245) within the process: every poll
    is one call of [GetInstances].  [os.Exit(1)] ends the process, and a
    loop that has not left when the polls of the world are used up is
    still polling. *)
Definition poll_instances (w : World) (s : Stack) (wl : Workload)
    : M (outcome (gmap string string)) := λ r,
  let '(o, out, n) := wait_loop ∅ (answers_GetInstances w) in
  let r1 :=
    {| globals := globals r;
       written := written r ++ (Wrote <$> out);
       called := called r ++ replicate n (CallGetInstances s wl);
       ticks := ticks r |} in
  match o with
  | Break _ => Returns o r1
  | Exit _ => Exits r1
  | Continue _ => StillPolling r1
  end.

(** [waitForComputeWorkload] as a whole (lines 197-250): the banner, the
    loop, and the closing lines once the loop has left through [break]. *)
Definition waitForComputeWorkload_full (w : World) : M unit :=
  _ ← write (Wrote (Println
         [Str "Waiting for all containers to start before continuing"]));
  t ← Now w;
  _ ← deref client;
  s ← deref stack;
  wl ← deref workload;
  _ ← poll_instances w s wl;
  _ ← write (Wrote (Println [Str "| Done"]));
  t1 ← Now w;
  _ ← write (WroteElapsed ("└ Took %v" +:+ newline +:+ newline) (t1 - t));
  write (ReadString "010").

(** [main] up to the start of the monitors (lines 33-93). *)
Definition main (cfg : Config) (w : World) : M unit :=
  _ ← write (Wrote (Println [Str banner]));
  _ ← write (ReadString "010");
  _ ← write (Wrote (Println [Str checking_requirements]));
  _ ← authenticateToStackPath cfg w;
  _ ← findStack cfg w;
  _ ← findDomainOnStack cfg w;
  _ ← write (Wrote (Println [Str requirements_met]));
  _ ← write (ReadString "010");
  _ ← write (Wrote (Println [Str deploying]));
  _ ← provisionComputeWorkload w;
  _ ← provisionSite cfg w;
  _ ← waitForComputeWorkload_full w;
  _ ← findDeliveryDomain w;
  _ ← setDNSCNAMERecord cfg w;
  _ ← provisionSSLCertificate w;
  _ ← createWAFRules w;
  _ ← write (Wrote (Printf
         ("Success! The project is available at https://%s.%s" +:+ newline)
         [Str (ProjectSubDomain cfg); Str (DomainName cfg)]));
  _ ← write (Wrote (Println
         [Str "Press [Enter] to begin monitoring the application"]));
  _ ← write (Wrote (Println
         [Str "Press [q] then [Enter] to end the program"]));
  write (ReadString "010").

(** The place of a call in the order of [main]. *)
Definition step_of (c : Call) : nat :=
  match c with
  | CallNewClient _ _ => 1
  | CallFindStackBySlug _ => 2
  | CallFindDomainByName _ _ => 3
  | CallCreateWorkload _ => 4
  | CallCreateSiteDelivery _ _ _ => 5
  | CallGetInstances _ _ => 6
  | CallFindSiteDeliveryDomain _ _ => 7
  | CallSetDNSCNAME _ _ _ _ => 8
  | CallRequestFreeSSLCert _ _ => 9
  | CallCreateDemoWAFRules _ _ => 10
  end.

(** A call that creates or changes something on the platform. *)
Definition creates (c : Call) : bool :=
  match c with
  | CallCreateWorkload _ | CallCreateSiteDelivery _ _ _
  | CallSetDNSCNAME _ _ _ _ | CallRequestFreeSSLCert _ _
  | CallCreateDemoWAFRules _ _ => true
  | _ => false
  end.

(** A world in which every step succeeds and the third poll finds three
    running instances. *)
Definition sample_world : World :=
  {| answer_NewClient := Fetched {| accessToken := "token" |};
     answer_FindStackBySlug :=
       Fetched (Some {| stack_ID := "s1"; stack_Slug := "demo";
                        stack_Name := "Demo" |});
     answer_FindDomainByName :=
       Fetched (Some {| domain_ID := "z1"; domain_Name := "example.org" |});
     answer_CreateWorkload :=
       Fetched {| workload_ID := "w1"; workload_Slug := "origin";
                  workload_Name := "My compute origin";
                  workload_AnycastIP := "185.85.196.1" |};
     answer_CreateSiteDelivery := Fetched {| site_ID := "site1" |};
     answers_GetInstances :=
       [Fetched []; Fetched [sample_instance "A" "STARTING"];
        Fetched [sample_instance "A" "RUNNING"; sample_instance "B" "RUNNING";
                 sample_instance "C" "RUNNING"]];
     answer_FindSiteDeliveryDomain := Fetched "x1.stackpathcdn.com";
     answer_SetDNSCNAME := None;
     answer_RequestFreeSSLCert := None;
     answer_CreateDemoWAFRules := None;
     clock := λ n, Z.of_nat n * Second |}.

Definition sample_config : Config :=
  {| APIClientID := "id"; APIClientSecret := "secret"; StackSlug := "demo";
     DomainName := "example.org"; ProjectSubDomain := "www" |}.

(** Sample values of the client: a token, a stack, a zone, a workload
    and a site, and a network that gives every request the same
    answer. *)
Definition sample_client : Client := {| accessToken := "token" |}.

Definition sample_stack : Stack :=
  {| stack_ID := "s1"; stack_Slug := "demo"; stack_Name := "Demo" |}.

Definition sample_zone : Domain :=
  {| domain_ID := "z1"; domain_Name := "example.org" |}.

Definition sample_workload : Workload :=
  {| workload_ID := "w1"; workload_Slug := "origin";
     workload_Name := "My compute origin";
     workload_AnycastIP := "185.85.196.1" |}.

Definition sample_site : Site := {| site_ID := "site1" |}.

Definition sample_response (code : Z) (status body : string) : Response :=
  {| StatusCode := code; Status := status; read_body := Fetched body;
     close_body := None |}.

Definition respond (code : Z) (status body : string)
    : Request → fetched Response :=
  λ _, Fetched (sample_response code status body).


(** A network that refuses the block rule of the WAF and would accept
    anything else. *)
Definition respond_but_block (req : Request) : fetched Response :=
  if bool_decide (req_body req = Some block_rule_body)
  then respond 403 "403 Forbidden" "no" req
  else respond 200 "200 OK" "{}" req.

(** [url.Parse] accepting every URL, and a time format. *)
Definition no_url_error : string → option error := λ _, None.

Definition sample_time_format : Time → string :=
  λ _, "2020-01-01T00:00:00Z".


(** The world of [sample_world] with a site whose only delivery domain is
    the project's own name. *)
Definition undelivered_world : World :=
  {| answer_NewClient := answer_NewClient sample_world;
     answer_FindStackBySlug := answer_FindStackBySlug sample_world;
     answer_FindDomainByName := answer_FindDomainByName sample_world;
     answer_CreateWorkload := answer_CreateWorkload sample_world;
     answer_CreateSiteDelivery := answer_CreateSiteDelivery sample_world;
     answers_GetInstances := answers_GetInstances sample_world;
     answer_FindSiteDeliveryDomain :=
       FindSiteDeliveryDomain no_url_error (λ _, Fetched ["www.example.org"])
         sample_client (respond 200 "200 OK" "{}") sample_stack sample_site;
     answer_SetDNSCNAME := None;
     answer_RequestFreeSSLCert := None;
     answer_CreateDemoWAFRules := None;
     clock := clock sample_world |}.

(** ** Lines and formats *)

Lemma transitions_app out1 out2 :
  transitions (out1 ++ out2) = transitions out1 ++ transitions out2.
Proof. apply filter_app. Qed.

Lemma transitions_of_app key out1 out2 :
  transitions_of key (out1 ++ out2)
  = transitions_of key out1 ++ transitions_of key out2.
Proof. apply filter_app. Qed.

Lemma lines_of_app format key out1 out2 :
  lines_of format key (out1 ++ out2)
  = lines_of format key out1 ++ lines_of format key out2.
Proof. apply filter_app. Qed.

Lemma transitions_donef format a :
  format ∈ error_formats → transitions (donef format a) = [].
Proof.
  unfold error_formats. rewrite !elem_of_cons, elem_of_nil.
  intros [->|[->|[->|[->|[]]]]]; reflexivity.
Qed.

(** ** The bring-up monitor *)

Lemma recorded_differs_dec st a :
  recorded_differs st a ↔ st !! Name a ≠ Some (Phase a).
Proof.
  unfold recorded_differs. destruct (st !! Name a) as [p|] eqn:E.
  - split.
    + intros [?|(q & ? & ?)]; congruence.
    + intros H. right. exists p. split; [done|]. congruence.
  - split; [intros _; done | intros _; by left].
Qed.

Lemma status_differs_spec st a :
  status_differs st a = true ↔ recorded_differs st a.
Proof.
  rewrite recorded_differs_dec. unfold status_differs.
  destruct (st !! Name a) as [p|] eqn:E; simpl;
    repeat case_bool_decide; simpl; split; intros; try done; try congruence.
  all: exfalso; eauto.
Qed.

Lemma status_differs_false st a :
  status_differs st a = false ↔ st !! Name a = Some (Phase a).
Proof.
  rewrite <- not_true_iff_false, status_differs_spec, recorded_differs_dec.
  destruct (decide (st !! Name a = Some (Phase a))); tauto.
Qed.

Lemma wait_status_lookup i a st k :
  (wait_status i a st).1 !! k
  = if bool_decide (Name a = k) then Some (Phase a) else st !! k.
Proof.
  unfold wait_status. destruct (status_differs st a) eqn:E; simpl.
  - case_bool_decide; subst; [apply lookup_insert_eq | by apply lookup_insert_ne].
  - case_bool_decide; [|done]. subst. by apply status_differs_false.
Qed.

Lemma wait_status_transitions i a st :
  transitions (wait_status i a st).2
  = if status_differs st a
    then [Printf fmt_instance_is [Str (Name a); Str (ToLower (Phase a))]]
    else [].
Proof.
  unfold wait_status. destruct (status_differs st a); [|done].
  simpl. case_bool_decide; reflexivity.
Qed.

Lemma wait_status_other i a st k :
  Name a ≠ k → transitions_of k (wait_status i a st).2 = [].
Proof.
  intros N. unfold wait_status. destruct (status_differs st a); [|done].
  simpl. unfold transitions_of. rewrite filter_app.
  rewrite (filter_cons_False _ (Printf _ _)).
  - case_bool_decide; reflexivity.
  - simpl. rewrite (bool_decide_eq_false_2 (Name a = k)) by done.
    rewrite ?andb_false_r. simpl. tauto.
Qed.

(** The loop over a concatenation is the loop over its first part
    followed by the loop over its second part. *)
Lemma wait_range_app i l1 l2 st b :
  wait_range i (l1 ++ l2) st b
  = let '(s1, b1, out1) := wait_range i l1 st b in
    let '(s2, b2, out2) := wait_range (i + length l1) l2 s1 b1 in
    (s2, b2, out1 ++ out2).
Proof.
  revert i st b. induction l1 as [|a l1 IH]; intros i st b; simpl.
  - rewrite Nat.add_0_r. by destruct (wait_range i l2 st b) as [[? ?] ?].
  - destruct (wait_status i a st) as [s1 o1].
    rewrite IH. replace (i + S (length l1))%nat with (S i + length l1)%nat by lia.
    destruct (wait_range (S i) l1 s1 _) as [[s2 b2] o2].
    destruct (wait_range _ l2 s2 b2) as [[s3 b3] o3].
    by rewrite app_assoc.
Qed.

(** After the loop the map holds, for every name fetched, the phase of
    its last instance, and is unchanged at the other names. *)
Lemma wait_range_lookup i l st b k :
  (wait_range i l st b).1.1 !! k = last_phase l k ∪ st !! k.
Proof.
  revert i st b. induction l as [|a l IH]; intros i st b; simpl.
  - by destruct (st !! k).
  - pose proof (wait_status_lookup i a st k) as Hs.
    destruct (wait_status i a st) as [s1 o1]. simpl in Hs.
    specialize (IH (S i) s1
      (if bool_decide (Phase a ≠ "RUNNING") then false else b)).
    destruct (wait_range (S i) l s1 _) as [[s2 b2] o2]. simpl in *.
    rewrite IH, Hs.
    case_bool_decide; by destruct (last_phase l k), (st !! k).
Qed.

Lemma wait_range_running i l st b :
  (wait_range i l st b).1.2
  = b && forallb (λ x, bool_decide (Phase x = "RUNNING")) l.
Proof.
  revert i st b. induction l as [|a l IH]; intros i st b; simpl.
  - by rewrite andb_true_r.
  - destruct (wait_status i a st) as [s1 o1].
    specialize (IH (S i) s1
      (if bool_decide (Phase a ≠ "RUNNING") then false else b)).
    destruct (wait_range (S i) l s1 _) as [[s2 b2] o2]. simpl in *.
    rewrite IH. repeat case_bool_decide; simpl; try done;
      by rewrite ?andb_false_r, ?andb_true_r.
Qed.

(** When every fetched instance is already recorded with its phase, the
    loop prints nothing and leaves the map as it is. *)
Lemma wait_range_quiet i l st b :
  (∀ a, a ∈ l → st !! Name a = Some (Phase a)) →
  (wait_range i l st b).1.1 = st ∧ (wait_range i l st b).2 = [].
Proof.
  revert i b. induction l as [|a l IH]; intros i b Hall; simpl; [done|].
  unfold wait_status.
  rewrite (proj2 (status_differs_false st a)) by (apply Hall; left).
  specialize (IH (S i)
    (if bool_decide (Phase a ≠ "RUNNING") then false else b)).
  destruct (wait_range (S i) l st _) as [[s2 b2] o2]. simpl in *.
  apply IH. intros a' Ha'. apply Hall. by right.
Qed.

Lemma last_phase_None l k : last_phase l k = None ↔ k ∉ Name <$> l.
Proof.
  induction l as [|a l IH]; simpl.
  - split; [intros _; apply not_elem_of_nil | done].
  - rewrite not_elem_of_cons. destruct (last_phase l k) as [p|].
    + split; [done|]. intros [_ H]. by apply IH in H.
    + case_bool_decide; split; try done.
      * intros [? _]. congruence.
      * intros _. split; [congruence | by apply IH].
Qed.

Lemma last_phase_Some l k p :
  last_phase l k = Some p → ∃ a, a ∈ l ∧ Name a = k ∧ Phase a = p.
Proof.
  induction l as [|a l IH]; simpl; [done|].
  destruct (last_phase l k) as [q|].
  - intros [= <-]. destruct IH as (a' & ? & ? & ?); [done|].
    exists a'. split; [by right | done].
  - case_bool_decide; [|done]. intros [= <-]. exists a. split; [by left | done].
Qed.

Lemma keyed_last_phase l a :
  keyed l → a ∈ l → last_phase l (Name a) = Some (Phase a).
Proof.
  intros Hk Ha. destruct (last_phase l (Name a)) as [p|] eqn:E.
  - apply last_phase_Some in E as (a' & Ha' & Hn & <-).
    f_equal. by apply Hk.
  - apply last_phase_None in E. exfalso. apply E.
    apply list_elem_of_fmap. by exists a.
Qed.

Lemma NoDup_keyed l : NoDup (Name <$> l) → keyed l.
Proof.
  induction l as [|x l IH]; intros Hnd a b Ha Hb Hn.
  - by apply elem_of_nil in Ha.
  - rewrite fmap_cons in Hnd. apply NoDup_cons in Hnd as [Hx Hnd].
    apply elem_of_cons in Ha as [->|Ha]; apply elem_of_cons in Hb as [->|Hb].
    + done.
    + exfalso. apply Hx. rewrite Hn. apply list_elem_of_fmap. by exists b.
    + exfalso. apply Hx. rewrite <- Hn. apply list_elem_of_fmap. by exists a.
    + by apply IH.
Qed.

Lemma wait_cycle_fetched st l :
  state_of (wait_cycle st (Fetched l)).1 = (wait_range 0 l st true).1.1
  ∧ (wait_cycle st (Fetched l)).2 = (wait_range 0 l st true).2.
Proof.
  unfold wait_cycle. case_bool_decide as Hl.
  - apply length_zero_iff_nil in Hl as ->. done.
  - destruct (wait_range 0 l st true) as [[s1 r1] o1]. simpl.
    by destruct (r1 && _).
Qed.

Lemma all_running_spec l :
  all_running l
  ↔ forallb (λ x, bool_decide (Phase x = "RUNNING")) l
    && bool_decide (3 ≤ length l)%nat = true.
Proof.
  unfold all_running.
  rewrite andb_true_iff, bool_decide_eq_true, forallb_forall, Forall_forall.
  split.
  - intros [? H]. split; [|done]. intros x Hx.
    apply bool_decide_eq_true_2, H, list_elem_of_In, Hx.
  - intros [H ?]. split; [done|]. intros x Hx.
    eapply bool_decide_eq_true_1, H, list_elem_of_In, Hx.
Qed.

Lemma wait_cycle_break st l :
  all_running l → ∃ s out, wait_cycle st (Fetched l) = (Break s, out).
Proof.
  intros Hr. pose proof Hr as [Hlen _]. apply all_running_spec in Hr.
  unfold wait_cycle. rewrite bool_decide_eq_false_2 by lia.
  pose proof (wait_range_running 0 l st true) as Hb.
  destruct (wait_range 0 l st true) as [[s1 r1] o1]. simpl in Hb.
  rewrite Hb. simpl. rewrite Hr. by do 2 eexists.
Qed.

Lemma wait_cycle_continue st l :
  ¬ all_running l → ∃ s out, wait_cycle st (Fetched l) = (Continue s, out).
Proof.
  intros Hr. rewrite all_running_spec in Hr. apply not_true_is_false in Hr.
  unfold wait_cycle.
  destruct (bool_decide (length l = 0%nat)); [by do 2 eexists|].
  pose proof (wait_range_running 0 l st true) as Hb.
  destruct (wait_range 0 l st true) as [[s1 r1] o1]. simpl in Hb.
  rewrite Hb. simpl. rewrite Hr. by do 2 eexists.
Qed.

(** C1.  Per-item diff rule of the bring-up monitor.  In a cycle over a
    fetched list, every instance is met with the map [s0] the loop holds at
    that moment: the monitor prints exactly one transition line for it and
    stores its phase under its name if and only if the name is missing
    from [s0] or recorded with another phase; otherwise it prints nothing
    and leaves the map alone.  Hence, when names are keys of the fetched
    list, fetching the same list again prints nothing and changes
    nothing. *)
Theorem per_item_diff_rule (instanceStatus : gmap string string)
    (instances : list Instance) :
  (∀ pre instance post, instances = pre ++ instance :: post →
     ∃ s0 r0 out0 s1 out1 out2,
       wait_range 0 pre instanceStatus true = (s0, r0, out0)
       ∧ wait_status (length pre) instance s0 = (s1, out1)
       ∧ (wait_cycle instanceStatus (Fetched instances)).2
         = out0 ++ out1 ++ out2
       ∧ (recorded_differs s0 instance
          ↔ transitions out1
            = [Printf fmt_instance_is
                 [Str (Name instance); Str (ToLower (Phase instance))]]
            ∧ s1 = <[Name instance := Phase instance]> s0)
       ∧ (¬ recorded_differs s0 instance → out1 = [] ∧ s1 = s0))
  ∧ (keyed instances →
     let first := wait_cycle instanceStatus (Fetched instances) in
     let second := wait_cycle (state_of first.1) (Fetched instances) in
     second.2 = [] ∧ state_of second.1 = state_of first.1).
Proof.
  split.
  - intros pre a post ->.
    destruct (wait_cycle_fetched instanceStatus (pre ++ a :: post)) as [_ ->].
    rewrite wait_range_app.
    destruct (wait_range 0 pre instanceStatus true) as [[s0 r0] out0].
    simpl. pose proof (wait_status_transitions (length pre) a s0) as Ht.
    unfold wait_status in *.
    destruct (status_differs s0 a) eqn:Hd.
    + destruct (wait_range _ post _ _) as [[s2 r2] out2].
      eexists s0, r0, out0, _, _, out2. simpl. rewrite Hd.
      apply status_differs_spec in Hd.
      split; [done|]. split; [done|]. split; [done|].
      split; [|done]. split; [|done]. intros _. split; [apply Ht | done].
    + destruct (wait_range _ post _ _) as [[s2 r2] out2].
      eexists s0, r0, out0, _, _, out2. simpl. rewrite Hd.
      apply not_true_iff_false in Hd. rewrite status_differs_spec in Hd.
      split; [done|]. split; [done|]. split; [done|].
      split; [|done]. split; [done|]. by intros [? _].
  - intros Hk first second.
    destruct (wait_cycle_fetched instanceStatus instances) as [Hs _].
    destruct (wait_cycle_fetched (state_of first.1) instances) as [Hs2 Ho2].
    fold first in Hs. fold second in Hs2, Ho2.
    destruct (wait_range_quiet 0 instances (state_of first.1) true) as [Q1 Q2].
    { intros a Ha. rewrite Hs, wait_range_lookup, keyed_last_phase by done.
      by destruct (instanceStatus !! Name a). }
    by rewrite Hs2, Ho2, Q1, Q2.
Qed.

(** C10.  Two instances of one name with two distinct phases in one
    fetch: when the first phase is not the recorded one, the bring-up
    monitor prints two transition lines for that name within the one
    cycle, and the map ends up holding the phase of the last instance. *)
Theorem duplicate_names_two_lines (instanceStatus : gmap string string)
    (a b : Instance) :
  Name a = Name b → Phase a ≠ Phase b →
  instanceStatus !! Name a ≠ Some (Phase a) →
  let cycle := wait_cycle instanceStatus (Fetched [a; b]) in
  transitions_of (Name a) cycle.2
  = [Printf fmt_instance_is [Str (Name a); Str (ToLower (Phase a))];
     Printf fmt_instance_is [Str (Name a); Str (ToLower (Phase b))]]
  ∧ transitions cycle.2 = transitions_of (Name a) cycle.2
  ∧ state_of cycle.1 !! Name a = Some (Phase b).
Proof.
  intros Hn Hp Hd cycle. subst cycle. unfold wait_cycle. simpl.
  unfold wait_status.
  rewrite (proj2 (status_differs_spec instanceStatus a))
    by (by apply recorded_differs_dec).
  rewrite (proj2 (status_differs_spec _ b)).
  2:{ apply recorded_differs_dec. rewrite <- Hn, lookup_insert_eq. congruence. }
  simpl. rewrite <- Hn, andb_false_r. simpl.
  unfold transitions_of, transitions.
  repeat (rewrite filter_cons; simpl).
  rewrite !(bool_decide_eq_true_2 (Name a = Name a)) by done. simpl.
  split; [done|]. split; [done|]. apply lookup_insert_eq.
Qed.

Lemma wait_loop_cons st fetch rest :
  wait_loop st (fetch :: rest)
  = match wait_cycle st fetch with
    | (Continue status1, out) =>
        let '(o, out', n) := wait_loop status1 rest in (o, out ++ out', S n)
    | (o, out) => (o, out, 1%nat)
    end.
Proof. reflexivity. Qed.

(** C3.  Bring-up termination.  Over any sequence of successful fetches,
    if poll [K] (counted from 0) is the first whose list holds at least
    three instances, all RUNNING, the loop leaves through [break] right
    after that poll, having made [K + 1] fetches, and it is still going
    round after each smaller number of polls. *)
Theorem bring_up_termination (instanceStatus : gmap string string)
    (polls : list (list Instance)) (K : nat) (instances : list Instance) :
  polls !! K = Some instances →
  all_running instances →
  (∀ j earlier, (j < K)%nat → polls !! j = Some earlier →
                ¬ all_running earlier) →
  (∃ s out, wait_loop instanceStatus (Fetched <$> polls) = (Break s, out, S K))
  ∧ (∀ j, (j ≤ K)%nat →
       ∃ s out, wait_loop instanceStatus (Fetched <$> take j polls)
                = (Continue s, out, j)).
Proof.
  revert instanceStatus polls.
  induction K as [|K IH]; intros st polls HK Hrun Hearlier.
  - destruct polls as [|p polls]; [done|]. simpl in HK. injection HK as ->.
    split.
    + rewrite fmap_cons, wait_loop_cons.
      destruct (wait_cycle_break st instances Hrun) as (s & out & ->).
      by do 2 eexists.
    + intros j Hj. replace j with 0%nat by lia. by do 2 eexists.
  - destruct polls as [|p polls]; [done|]. simpl in HK.
    destruct (wait_cycle_continue st p) as (s1 & out1 & Hc).
    { apply (Hearlier 0%nat); [lia | done]. }
    assert (∀ j earlier, (j < K)%nat → polls !! j = Some earlier →
                         ¬ all_running earlier) as Hearlier'.
    { intros j e Hj He. apply (Hearlier (S j)); [lia | done]. }
    destruct (IH s1 polls HK Hrun Hearlier') as [(s & out & Hb) Hprefix].
    split.
    + rewrite fmap_cons, wait_loop_cons, Hc, Hb. by do 2 eexists.
    + intros [|j] Hj; [by do 2 eexists|].
      destruct (Hprefix j) as (s' & out' & Hp); [lia|].
      rewrite firstn_cons, fmap_cons, wait_loop_cons, Hc, Hp.
      by do 2 eexists.
Qed.

(** ** The WAF event monitor *)

Lemma waf_range_spec len i requests w :
  i + Z.of_nat (length requests) = len →
  waf_range len i requests w
  = (from_option (λ r, Add (RequestTime r) Second) w (last requests),
     waf_line <$> requests).
Proof.
  revert i w. induction requests as [|r rest IH]; intros i w Hlen; [done|].
  cbn [waf_range]. rewrite IH by (simpl in Hlen; lia).
  destruct rest as [|r' rest'].
  - simpl in *. by rewrite bool_decide_eq_true_2 by lia.
  - rewrite last_cons_cons. simpl last at 1.
    by destruct (last (r' :: rest')) eqn:E; [|by apply last_None in E].
Qed.

Lemma waf_cycle_fetched w requests :
  waf_cycle w (Fetched requests)
  = (Continue (from_option (λ r, Add (RequestTime r) Second) w (last requests)),
     waf_line <$> requests).
Proof. unfold waf_cycle. by rewrite waf_range_spec by lia. Qed.

Lemma next_watermark_spec w requests :
  next_watermark w requests
  = from_option (λ r, Add (RequestTime r) Second) w (last requests).
Proof. unfold next_watermark. by rewrite waf_cycle_fetched. Qed.

Lemma waf_loop_fetched w (polls : list (list WAFRequest)) :
  waf_loop w (Fetched <$> polls)
  = (Continue (watermark_after w polls),
     concat (fmap (M := list) waf_line <$> polls), length polls).
Proof.
  revert w. induction polls as [|p polls IH]; intros w; [done|].
  rewrite !fmap_cons. cbn [waf_loop]. rewrite waf_cycle_fetched, IH.
  cbn [watermark_after foldl concat length].
  by rewrite next_watermark_spec.
Qed.

Lemma sorted_last_max requests r m :
  StronglySorted (λ a b, RequestTime a ≤ RequestTime b) requests →
  last requests = Some m → r ∈ requests → RequestTime r ≤ RequestTime m.
Proof.
  induction 1 as [|a l Hs IH Ha]; intros Hl Hr; [done|].
  destruct l as [|b l'].
  - simpl in Hl. injection Hl as <-. apply list_elem_of_singleton in Hr as ->. lia.
  - rewrite last_cons_cons in Hl. apply elem_of_cons in Hr as [->|Hr].
    + rewrite Forall_forall in Ha. apply Ha. by eapply last_Some_elem_of.
    + by apply IH.
Qed.

(** The watermark never moves back, and moves past every request of the
    poll. *)
Lemma next_watermark_mono w requests :
  poll_ok w requests → w ≤ next_watermark w requests.
Proof.
  intros [Hge _]. rewrite next_watermark_spec.
  destruct (last requests) as [m|] eqn:E; simpl; [|lia].
  rewrite Forall_forall in Hge. apply last_Some_elem_of in E.
  apply Hge in E. unfold Add, Second. lia.
Qed.

Lemma next_watermark_past w requests r :
  poll_ok w requests → r ∈ requests →
  RequestTime r < next_watermark w requests.
Proof.
  intros [_ Hs] Hr. rewrite next_watermark_spec.
  destruct (last requests) as [m|] eqn:E; simpl.
  - pose proof (sorted_last_max requests r m Hs E Hr). unfold Add, Second. lia.
  - apply last_None in E as ->. by apply elem_of_nil in Hr.
Qed.

Lemma polls_ok_lower_bound w polls k pk r :
  polls_ok w polls → polls !! k = Some pk → r ∈ pk → w ≤ RequestTime r.
Proof.
  revert w k. induction polls as [|p polls IH]; intros w k Hok Hk Hr; [done|].
  destruct Hok as [Hp Hrest]. destruct k as [|k]; simpl in Hk.
  - injection Hk as ->. destruct Hp as [Hge _].
    rewrite Forall_forall in Hge. by apply Hge.
  - pose proof (next_watermark_mono w p Hp).
    pose proof (IH _ k Hrest Hk Hr). lia.
Qed.

(** A request of a later poll is strictly later than every request of an
    earlier poll. *)
Lemma polls_ok_later w polls j k pj pk r r' :
  polls_ok w polls → (j < k)%nat →
  polls !! j = Some pj → polls !! k = Some pk →
  r ∈ pj → r' ∈ pk → RequestTime r < RequestTime r'.
Proof.
  revert w j k. induction polls as [|p polls IH]; intros w j k Hok Hjk Hj Hk Hr Hr';
    [done|].
  destruct Hok as [Hp Hrest]. destruct k as [|k]; [lia|]. simpl in Hk.
  destruct j as [|j]; simpl in Hj.
  - injection Hj as ->.
    pose proof (next_watermark_past w pj r Hp Hr).
    pose proof (polls_ok_lower_bound _ _ _ _ _ Hrest Hk Hr'). lia.
  - apply (IH _ j k Hrest); [lia | done..].
Qed.

Lemma waf_line_time r r' : waf_line r = waf_line r' → RequestTime r = RequestTime r'.
Proof. unfold waf_line. by intros [= _ _ ? _]. Qed.

(** C2.  Watermark advance rule of the WAF monitor.  A cycle that
    fetched a non-empty sequence leaves the watermark at the timestamp of
    the last request plus one second; a cycle that fetched nothing leaves
    it as it was.  So, when every poll returns only requests at or after
    the watermark it was passed, in ascending order, a poll that returns
    three requests, at times T1, T2 and T3 in that order, leaves the
    watermark at T3 plus one second, and none of the three is returned by
    a later poll, whose requests are all at or after that watermark. *)
Theorem watermark_advance (w : Time) :
  (∀ requests, requests ≠ [] →
     ∃ r, last requests = Some r
          ∧ waf_cycle w (Fetched requests)
            = (Continue (Add (RequestTime r) Second), waf_line <$> requests))
  ∧ waf_cycle w (Fetched []) = (Continue w, [])
  ∧ (∀ (polls : list (list WAFRequest)) (j : nat) (r1 r2 r3 : WAFRequest),
       polls_ok w polls →
       polls !! j = Some [r1; r2; r3] →
       (waf_loop w (Fetched <$> take (S j) polls)).1.1
       = Continue (Add (RequestTime r3) Second)
       ∧ ∀ k pk, (j < k)%nat → polls !! k = Some pk →
           (r1 ∉ pk) ∧ (r2 ∉ pk) ∧ (r3 ∉ pk)
           ∧ ∀ r, r ∈ pk → Add (RequestTime r3) Second ≤ RequestTime r).
Proof.
  split; [|split].
  - intros requests Hne. rewrite waf_cycle_fetched.
    destruct (last requests) as [r|] eqn:E.
    + by exists r.
    + by apply last_None in E.
  - done.
  - intros polls j r1 r2 r3 Hok Hj. split.
    + rewrite waf_loop_fetched. simpl. f_equal.
      rewrite (take_S_r _ _ _ Hj). unfold watermark_after.
      rewrite foldl_app. simpl. by rewrite next_watermark_spec.
    + intros k pk Hjk Hk.
      assert (∀ r r', r ∈ [r1; r2; r3] → r' ∈ pk →
                      RequestTime r < RequestTime r') as Hlater.
      { intros r r'. by apply (polls_ok_later w polls j k). }
      assert (∀ r, r ∈ [r1; r2; r3] → r ∉ pk) as Hnot.
      { intros r Hr Hin. specialize (Hlater r r Hr Hin). lia. }
      split; [apply Hnot; rewrite !elem_of_cons; tauto|].
      split; [apply Hnot; rewrite !elem_of_cons; tauto|].
      split; [apply Hnot; rewrite !elem_of_cons; tauto|].
      intros r Hr.
      assert (polls_ok (watermark_after w (take (S j) polls))
                (drop (S j) polls)) as Hdrop.
      { clear -Hok. revert w Hok.
        generalize (S j) as n. intros n. revert polls.
        induction n as [|n IH]; intros polls w Hok; [done|].
        destruct polls as [|p polls]; [done|]. destruct Hok as [_ Hrest].
        apply (IH _ _ Hrest). }
      assert (watermark_after w (take (S j) polls)
              = Add (RequestTime r3) Second) as Hw.
      { rewrite (take_S_r _ _ _ Hj). unfold watermark_after.
        rewrite foldl_app. simpl. by rewrite next_watermark_spec. }
      rewrite Hw in Hdrop.
      apply (polls_ok_lower_bound _ _ (k - S j) pk r Hdrop); [|done].
      rewrite lookup_drop. rewrite <- Hk. f_equal. lia.
Qed.

(** C7.  Exactly-once forwarding by the WAF monitor.  When every poll
    returns only requests at or after the watermark it was passed, in
    ascending order, the run prints, cycle after cycle, one line for each
    request the cycle fetched, in the order fetched; and a request fetched
    by one cycle is strictly earlier than every request of any later cycle,
    so no later cycle fetches it or prints its line again. *)
Theorem exactly_once_forwarding (w : Time) (polls : list (list WAFRequest)) :
  polls_ok w polls →
  (waf_loop w (Fetched <$> polls)).1.2
  = concat (fmap (M := list) waf_line <$> polls)
  ∧ (∀ j, waf_loop w (Fetched <$> take j polls)
          = (Continue (watermark_after w (take j polls)),
             concat (fmap (M := list) waf_line <$> take j polls),
             length (take j polls)))
  ∧ ∀ j k pj pk r, (j < k)%nat →
      polls !! j = Some pj → polls !! k = Some pk → r ∈ pj →
      (∀ r', r' ∈ pk → RequestTime r < RequestTime r')
      ∧ (r ∉ pk)
      ∧ (waf_line r ∉ waf_line <$> pk).
Proof.
  intros Hok. split; [by rewrite waf_loop_fetched|].
  split; [intros j; apply waf_loop_fetched|].
  intros j k pj pk r Hjk Hj Hk Hr.
  assert (∀ r', r' ∈ pk → RequestTime r < RequestTime r') as Hlater.
  { intros r'. by apply (polls_ok_later w polls j k pj). }
  split; [done|]. split.
  - intros Hin. specialize (Hlater r Hin). lia.
  - intros (r' & Heq & Hin)%list_elem_of_fmap.
    apply waf_line_time in Heq. specialize (Hlater r' Hin). lia.
Qed.

(** ** The continuous monitor *)

Lemma lookup_insert_name (st : gmap string string) a k :
  <[Name a := Phase a]> st !! k
  = if bool_decide (Name a = k) then Some (Phase a) else st !! k.
Proof.
  case_bool_decide; subst; [apply lookup_insert_eq | by apply lookup_insert_ne].
Qed.

Lemma logs_status_lookup i a st k :
  (logs_status i a st).1 !! k
  = if bool_decide (Name a = k) then Some (Phase a) else st !! k.
Proof.
  unfold logs_status. destruct (bool_decide (i = 0)); simpl.
  - apply lookup_insert_name.
  - destruct (st !! Name a) as [p|] eqn:E; simpl.
    + destruct (decide (p = Phase a)) as [->|N].
      * rewrite bool_decide_eq_false_2 by (by intros []). simpl.
        case_bool_decide; congruence.
      * rewrite bool_decide_eq_true_2 by done. apply lookup_insert_name.
    + apply lookup_insert_name.
Qed.

(** What the status part prints depends on the recorded phase of the
    instance only. *)
Lemma logs_status_out i a st :
  (logs_status i a st).2
  = if bool_decide (i = 0) then []
    else match st !! Name a with
         | None =>
             [Printf fmt_new_instance
                [Str (Name a); Str (ToLower (Phase a))]]
         | Some p =>
             if bool_decide (p ≠ Phase a)
             then [Printf fmt_instance_now
                     [Str (Name a); Str (ToLower (Phase a))]]
             else []
         end.
Proof.
  unfold logs_status. destruct (bool_decide (i = 0)); [done|].
  destruct (st !! Name a) as [p|]; [|done].
  by destruct (bool_decide (p ≠ Phase a)).
Qed.

Lemma filter_key_other (P : Line → bool) (k : string) (out : list Line) :
  Forall (λ l, key_is k l = false) out →
  filter (λ l, P l && key_is k l) out = [].
Proof.
  induction 1 as [|l out Hl _ IH]; [done|].
  rewrite filter_cons_False; [done|]. rewrite Hl, andb_false_r. simpl. tauto.
Qed.

Lemma logs_status_keys i a st k :
  Name a ≠ k → Forall (λ l, key_is k l = false) (logs_status i a st).2.
Proof.
  intros N. rewrite logs_status_out.
  destruct (bool_decide (i = 0)); [done|].
  assert (bool_decide (Name a = k) = false) by by apply bool_decide_eq_false_2.
  destruct (st !! Name a) as [p|].
  - destruct (bool_decide (p ≠ Phase a)); repeat constructor; done.
  - repeat constructor; done.
Qed.

Lemma log_lines_transitions a logs : transitions (log_lines a logs) = [].
Proof.
  unfold log_lines. induction (ScanLines logs) as [|t ts IH]; [done|].
  rewrite fmap_cons. unfold transitions in *.
  rewrite filter_cons_False; [done|]. simpl. tauto.
Qed.

Lemma transitions_of_sub k out :
  transitions out = [] → transitions_of k out = [].
Proof.
  unfold transitions, transitions_of. induction out as [|l out IH]; [done|].
  rewrite !filter_cons. destruct (decide (is_transition l)) as [Ht|Ht].
  - done.
  - intros H. rewrite decide_False; [by apply IH|].
    intros [? _]%andb_True. done.
Qed.

Lemma lines_of_sub format k out :
  format ∈ transition_formats →
  transitions_of k out = [] → lines_of format k out = [].
Proof.
  intros Hf. unfold lines_of, transitions_of.
  induction out as [|l out IH]; [done|].
  rewrite !filter_cons.
  destruct (decide (is_transition l && key_is k l)) as [Ht|Ht]; [done|].
  intros H. rewrite decide_False; [by apply IH|].
  intros [Hfmt Hk]%andb_True. apply Ht. apply andb_True. split; [|done].
  destruct l as [f args|]; [|done]. simpl in *.
  apply bool_decide_unpack in Hfmt. subst f. by apply bool_decide_pack.
Qed.

(** The loop over a concatenation: the second part runs only if the
    first part ended without a failed fetch. *)
Lemma logs_answer_later n env :
  logs_answer (Nat.iter n later_calls env)
  = λ m, logs_answer env (n + m)%nat.
Proof.
  revert env. induction n as [|n IH]; intros env; [done|].
  rewrite Nat.iter_succ_r. by rewrite IH.
Qed.

Lemma logs_range_app env t i l1 l2 st :
  logs_range env t i (l1 ++ l2) st
  = match logs_range env t i l1 st with
    | (Continue s1, out1) =>
        let '(o, out2) :=
          logs_range (Nat.iter (length l1) later_calls env) t i l2 s1 in
        (o, out1 ++ out2)
    | (o, out1) => (o, out1)
    end.
Proof.
  revert env st. induction l1 as [|a l1 IH]; intros env st.
  - simpl. by destruct (logs_range env t i l2 st).
  - cbn [app logs_range length]. rewrite Nat.iter_succ_r.
    destruct (logs_status i a st) as [s1 o1].
    destruct (logs_answer env 0%nat a t) as [logs|err]; [|done].
    rewrite IH.
    destruct (logs_range (later_calls env) t i l1 s1) as [[s2|s2|s2] o2];
      try done.
    destruct (logs_range _ t i l2 s2) as [o o3].
    by rewrite !app_assoc.
Qed.


Lemma logs_range_lookup env t i l st s out k :
  logs_range env t i l st = (Continue s, out) →
  s !! k = last_phase l k ∪ st !! k.
Proof.
  revert env st out. induction l as [|a l IH]; intros env st out; simpl.
  - intros [= <- _]. by destruct (st !! k).
  - pose proof (logs_status_lookup i a st k) as Hs.
    destruct (logs_status i a st) as [s1 o1]. simpl in Hs.
    destruct (logs_answer env 0%nat a t) as [logs|err]; [|done].
    specialize (IH (later_calls env) s1).
    destruct (logs_range (later_calls env) t i l s1) as [o o3].
    intros [= -> <-]. rewrite (IH _ eq_refl), Hs.
    case_bool_decide; by destruct (last_phase l k), (st !! k).
Qed.

(** Instances of other names print no transition line about [k],
    whatever way the loop ends. *)
Lemma logs_range_other env t i l st k :
  k ∉ Name <$> l → transitions_of k (logs_range env t i l st).2 = [].
Proof.
  revert env st. induction l as [|a l IH]; intros env st Hk; simpl; [done|].
  rewrite fmap_cons in Hk. apply not_elem_of_cons in Hk as [Hka Hkl].
  pose proof (logs_status_keys i a st k (not_eq_sym Hka)) as Hs.
  destruct (logs_status i a st) as [s1 o1]. simpl in Hs.
  destruct (logs_answer env 0%nat a t) as [logs|err]; simpl.
  - specialize (IH (later_calls env) s1 Hkl).
    destruct (logs_range (later_calls env) t i l s1) as [o o3].
    simpl in *. rewrite !transitions_of_app, IH.
    unfold transitions_of at 1. rewrite filter_key_other by done.
    by rewrite (transitions_of_sub _ _ (log_lines_transitions a logs)).
  - rewrite transitions_of_app.
    unfold transitions_of at 1. rewrite filter_key_other by done.
    apply transitions_of_sub, transitions_donef.
    unfold error_formats. rewrite !elem_of_cons. tauto.
Qed.

(** Once a name is recorded, the loop prints no [New instance] line for
    it. *)
Lemma logs_range_known env t i l st k :
  is_Some (st !! k) →
  lines_of fmt_new_instance k (logs_range env t i l st).2 = [].
Proof.
  revert env st. induction l as [|a l IH]; intros env st Hk; simpl; [done|].
  pose proof (logs_status_lookup i a st k) as Hl.
  pose proof (logs_status_out i a st) as Ho.
  pose proof (logs_status_keys i a st k) as Hs.
  destruct (logs_status i a st) as [s1 o1]. simpl in Hl, Ho, Hs.
  assert (lines_of fmt_new_instance k o1 = []) as Ho1.
  { destruct (decide (Name a = k)) as [Heq|N].
    - rewrite Ho, Heq. destruct (bool_decide (i = 0)); [done|].
      destruct Hk as [p ->]. by destruct (bool_decide (p ≠ Phase a)).
    - unfold lines_of. apply filter_key_other. by apply Hs. }
  assert (is_Some (s1 !! k)) as Hk1.
  { rewrite Hl. destruct (bool_decide (Name a = k)); [by eexists | done]. }
  destruct (logs_answer env 0%nat a t) as [logs|err]; simpl.
  - specialize (IH (later_calls env) s1 Hk1).
    destruct (logs_range (later_calls env) t i l s1) as [o o3].
    simpl in *. rewrite !lines_of_app, Ho1, IH, app_nil_r. simpl.
    apply lines_of_sub; [unfold transition_formats; rewrite !elem_of_cons; tauto|].
    apply transitions_of_sub, log_lines_transitions.
  - rewrite lines_of_app, Ho1. simpl.
    apply lines_of_sub; [unfold transition_formats; rewrite !elem_of_cons; tauto|].
    apply transitions_of_sub, transitions_donef.
    unfold error_formats. rewrite !elem_of_cons. tauto.
Qed.

Lemma lines_of_transitions format k out :
  format ∈ transition_formats →
  lines_of format k out
  = filter (λ l, has_format format l) (transitions_of k out).
Proof.
  intros Hf. unfold lines_of, transitions_of.
  induction out as [|l out IH]; [done|].
  rewrite !filter_cons, IH.
  destruct (decide (has_format format l && key_is k l)) as [H|H].
  - apply andb_True in H as [Hfmt Hk].
    assert (Is_true (is_transition l)) as Ht.
    { destruct l as [f args|]; [|done]. simpl in *.
      apply bool_decide_unpack in Hfmt. subst f. by apply bool_decide_pack. }
    rewrite decide_True by (apply andb_True; done).
    rewrite filter_cons, decide_True by done. done.
  - destruct (decide (is_transition l && key_is k l)) as [H'|H']; [|done].
    rewrite filter_cons, decide_False; [done|].
    intros Hfmt. apply H. apply andb_True in H' as [_ Hk].
    apply andb_True. done.
Qed.

Lemma find_instance_spec k l found new :
  find_instance k l found new
  = (found || bool_decide (is_Some (last_phase l k)),
     from_option (λ p, <[k:=p]> new) new (last_phase l k)).
Proof.
  revert found new. induction l as [|a l IH]; intros found new; simpl.
  - by rewrite orb_false_r.
  - destruct (decide (k = Name a)) as [->|N].
    + rewrite bool_decide_eq_true_2 by done. rewrite IH.
      destruct (last_phase l (Name a)) as [p|]; simpl.
      * by rewrite orb_true_r, insert_insert_eq.
      * by rewrite orb_true_r.
    + rewrite bool_decide_eq_false_2 by done. rewrite IH.
      destruct (last_phase l k) as [p|]; [done|].
      by rewrite (bool_decide_eq_false_2 (Name a = k)) by done.
Qed.

Lemma went_away_lookup keys l new k :
  (went_away keys l new).1 !! k
  = (if bool_decide (k ∈ keys) then last_phase l k else None) ∪ new !! k.
Proof.
  revert new. induction keys as [|c keys IH]; intros new; cbn [went_away].
  - rewrite bool_decide_eq_false_2 by apply not_elem_of_nil.
    cbn [fst]. by destruct (new !! k).
  - rewrite find_instance_spec. specialize (IH
      (from_option (λ p, <[c:=p]> new) new (last_phase l c))).
    destruct (went_away keys l _) as [s2 o2]. cbn [fst] in *. rewrite IH.
    destruct (decide (k = c)) as [->|N].
    + rewrite (bool_decide_eq_true_2 (c ∈ c :: keys)) by by left.
      destruct (last_phase l c) as [p|]; simpl.
      * rewrite lookup_insert_eq.
        by destruct (bool_decide (c ∈ keys)), (new !! c).
      * destruct (bool_decide (c ∈ keys)); by destruct (new !! c).
    + assert (bool_decide (k ∈ c :: keys) = bool_decide (k ∈ keys)) as ->.
      { apply bool_decide_ext. rewrite elem_of_cons. tauto. }
      destruct (last_phase l c) as [p|]; simpl; [|done].
      by rewrite lookup_insert_ne by done.
Qed.

Lemma went_away_out keys l new :
  (went_away keys l new).2
  = went_away_line <$> filter (λ k, last_phase l k = None) keys.
Proof.
  revert new. induction keys as [|c keys IH]; intros new; simpl; [done|].
  rewrite find_instance_spec. specialize (IH
    (from_option (λ p, <[c:=p]> new) new (last_phase l c))).
  destruct (went_away keys l _) as [s2 o2]. simpl in *. rewrite IH.
  rewrite filter_cons. by destruct (last_phase l c) as [p|].
Qed.

Lemma transitions_of_went_away_lines k (ks : list string) :
  NoDup ks →
  transitions_of k (went_away_line <$> ks)
  = if bool_decide (k ∈ ks) then [went_away_line k] else [].
Proof.
  induction 1 as [|c ks Hc _ IH].
  - by rewrite bool_decide_eq_false_2 by apply not_elem_of_nil.
  - rewrite fmap_cons. unfold transitions_of in *. rewrite filter_cons, IH.
    simpl. destruct (decide (c = k)) as [->|N].
    + rewrite (bool_decide_eq_true_2 (k = k)) by done. simpl.
      rewrite bool_decide_eq_false_2 by done.
      by rewrite bool_decide_eq_true_2 by by left.
    + rewrite (bool_decide_eq_false_2 (c = k)) by done. simpl.
      apply (f_equal (λ b : bool, if b then _ else _)).
      apply bool_decide_ext. rewrite elem_of_cons. split; [tauto|].
      intros [?|?]; [congruence | done].
Qed.

Lemma went_away_transitions keys l new k :
  NoDup keys →
  transitions_of k (went_away keys l new).2
  = if bool_decide (k ∈ keys ∧ last_phase l k = None)
    then [went_away_line k] else [].
Proof.
  intros Hnd. rewrite went_away_out.
  rewrite transitions_of_went_away_lines by by apply NoDup_filter.
  apply (f_equal (λ b : bool, if b then _ else _)).
  apply bool_decide_ext. rewrite list_elem_of_filter. tauto.
Qed.

Lemma range_ok_keys env (m : gmap string string) :
  range_ok env →
  NoDup (range_order env m) ∧ ∀ k, k ∈ range_order env m ↔ is_Some (m !! k).
Proof.
  intros Hr. split.
  - rewrite (Hr m). apply NoDup_fst_map_to_list.
  - intros k. rewrite (Hr m). rewrite list_elem_of_fmap. split.
    + intros ([k' v] & -> & Hin). apply elem_of_map_to_list in Hin. by eexists.
    + intros [v Hv]. exists (k, v). split; [done|].
      by apply elem_of_map_to_list.
Qed.

(** A cycle that goes round again, taken apart: the [range] loop ended
    without a failed fetch, and the reconciliation of lines 391-410 ran
    unless this is the cycle with [i == 0]. *)
Lemma logs_cycle_inv s env instances s' out :
  listing env = Fetched instances →
  logs_cycle s env = (Continue s', out) →
  ∃ s1 out1 out2,
    logs_range env (st_time s) (st_i s) instances (st_status s)
    = (Continue s1, out1)
    ∧ out = out1 ++ out2
    ∧ st_time s' = now env
    ∧ st_i s' = wrap64 (st_i s + 1)
    ∧ (st_i s = 0 → st_status s' = s1 ∧ out2 = [])
    ∧ (st_i s ≠ 0 →
       (st_status s', out2) = went_away (range_order env s1) instances ∅).
Proof.
  intros Hl. unfold logs_cycle. rewrite Hl.
  destruct (logs_range env _ _ instances _) as [[s1|s1|s1] out1]; try done.
  destruct (decide (st_i s = 0)) as [Hi|Hi].
  - rewrite bool_decide_eq_false_2 by (by intros []).
    intros [= <- <-]. exists s1, out1, []. simpl. by rewrite app_nil_r.
  - rewrite bool_decide_eq_true_2 by done.
    destruct (went_away _ instances ∅) as [s2 out2] eqn:E.
    intros [= <- <-]. by exists s1, out1, out2.
Qed.

(** After a reconciled cycle the map holds exactly the fetched names,
    each with the phase of its last instance. *)
Lemma logs_cycle_status s env instances s' out k :
  range_ok env → st_i s ≠ 0 →
  listing env = Fetched instances →
  logs_cycle s env = (Continue s', out) →
  st_status s' !! k = last_phase instances k.
Proof.
  intros Hr Hi Hl Hc.
  destruct (logs_cycle_inv _ _ _ _ _ Hl Hc)
    as (s1 & out1 & out2 & Hrange & -> & _ & _ & _ & Hw).
  specialize (Hw Hi). apply (f_equal fst) in Hw. simpl in Hw.
  rewrite Hw, went_away_lookup, lookup_empty.
  pose proof (logs_range_lookup _ _ _ _ _ _ _ k Hrange) as Hs1.
  destruct (range_ok_keys env s1 Hr) as [_ Hkeys].
  destruct (last_phase instances k) as [p|] eqn:E.
  - rewrite bool_decide_eq_true_2; [done|].
    apply Hkeys. rewrite Hs1. by destruct (st_status s !! k); eexists.
  - by destruct (bool_decide _).
Qed.

Lemma logs_cycle_transitions s env instances s' out k :
  range_ok env → st_i s ≠ 0 →
  listing env = Fetched instances →
  logs_cycle s env = (Continue s', out) →
  transitions_of k out
  = transitions_of k
      (logs_range env (st_time s) (st_i s) instances (st_status s)).2
    ++ if bool_decide (is_Some (st_status s !! k)
                       ∧ last_phase instances k = None)
       then [went_away_line k] else [].
Proof.
  intros Hr Hi Hl Hc.
  destruct (logs_cycle_inv _ _ _ _ _ Hl Hc)
    as (s1 & out1 & out2 & Hrange & -> & _ & _ & _ & Hw).
  specialize (Hw Hi). apply (f_equal snd) in Hw. simpl in Hw.
  rewrite Hrange, transitions_of_app. f_equal. rewrite Hw.
  destruct (range_ok_keys env s1 Hr) as [Hnd Hkeys].
  rewrite went_away_transitions by done.
  apply (f_equal (λ b : bool, if b then _ else _)).
  apply bool_decide_ext. rewrite Hkeys.
  rewrite (logs_range_lookup _ _ _ _ _ _ _ k Hrange).
  split; intros [H E]; (split; [|done]); rewrite E in *;
    by destruct (st_status s !! k).
Qed.

(** The first cycle only fills the map. *)
Lemma logs_cycle_first s env instances s' out k :
  st_i s = 0 →
  listing env = Fetched instances →
  logs_cycle s env = (Continue s', out) →
  transitions out = []
  ∧ st_status s' !! k = last_phase instances k ∪ st_status s !! k.
Proof.
  intros Hi Hl Hc.
  destruct (logs_cycle_inv _ _ _ _ _ Hl Hc)
    as (s1 & out1 & out2 & Hrange & -> & _ & _ & H0 & _).
  destruct (H0 Hi) as [-> ->]. rewrite app_nil_r. split.
  - revert Hrange. rewrite Hi. clear. generalize (st_status s) as st.
    revert env out1.
    induction instances as [|a l IH]; intros env out1 st; simpl.
    + by intros [= _ <-].
    + destruct (logs_answer env 0%nat a _) as [logs|err]; [|done].
      pose proof (λ out, IH (later_calls env) out (<[Name a:=Phase a]> st))
        as IH'.
      destruct (logs_range (later_calls env) _ 0 l _) as [o o3].
      intros [= -> <-]. rewrite transitions_app, log_lines_transitions.
      by apply IH'.
  - by apply (logs_range_lookup _ _ _ _ _ _ _ k Hrange).
Qed.

(** What the status part prints is about its instance. *)
Lemma logs_status_own i a st :
  transitions_of (Name a) (logs_status i a st).2 = (logs_status i a st).2.
Proof.
  rewrite logs_status_out. destruct (bool_decide (i = 0)); [done|].
  unfold transitions_of.
  destruct (st !! Name a) as [p|]; [destruct (bool_decide (p ≠ Phase a))|];
    try done; rewrite filter_cons; simpl;
    by rewrite (bool_decide_eq_true_2 (Name a = Name a)) by done.
Qed.

(** The transition lines about a name fetched once are those its own
    instance causes, and they depend on the phase recorded for the name
    when the cycle starts. *)
Lemma logs_range_key env t i pre a post st :
  Name a ∉ Name <$> pre → Name a ∉ Name <$> post →
  (∃ s1, (logs_range env t i (pre ++ a :: post) st).1 = Continue s1) →
  transitions_of (Name a) (logs_range env t i (pre ++ a :: post) st).2
  = (logs_status i a st).2.
Proof.
  intros Hpre Hpost [s1 Hc]. revert Hc. rewrite logs_range_app.
  set (env1 := Nat.iter (length pre) later_calls env).
  pose proof (logs_range_other env t i pre st (Name a) Hpre) as Ho.
  pose proof (logs_range_lookup env t i pre st) as Hlk.
  destruct (logs_range env t i pre st) as [[s0|s0|s0] out0]; try done.
  specialize (Hlk s0 out0 (Name a) eq_refl).
  rewrite (proj2 (last_phase_None pre (Name a)) Hpre) in Hlk.
  assert (s0 !! Name a = st !! Name a) as Hsame
    by (rewrite Hlk; by destruct (st !! Name a)).
  cbn [logs_range].
  pose proof (logs_status_own i a s0) as Hown.
  pose proof (logs_status_out i a s0) as Hout.
  destruct (logs_status i a s0) as [s0' o1]. simpl in Hown, Hout.
  destruct (logs_answer env1 0%nat a t) as [logs|err]; [|done].
  pose proof (logs_range_other (later_calls env1) t i post s0' (Name a)
                Hpost) as Ho'.
  destruct (logs_range (later_calls env1) t i post s0') as [o o3].
  simpl in *.
  intros _. rewrite !transitions_of_app, Ho, Ho', Hown, app_nil_r. simpl.
  rewrite (transitions_of_sub _ _ (log_lines_transitions a logs)), app_nil_r.
  by rewrite Hout, logs_status_out, Hsame.
Qed.

(** The same for the bring-up loop. *)
Lemma wait_range_other i l st b k :
  k ∉ Name <$> l → transitions_of k (wait_range i l st b).2 = [].
Proof.
  revert i st b. induction l as [|a l IH]; intros i st b Hk; simpl; [done|].
  rewrite fmap_cons in Hk. apply not_elem_of_cons in Hk as [Hka Hkl].
  pose proof (wait_status_other i a st k (not_eq_sym Hka)) as Hs.
  destruct (wait_status i a st) as [s1 o1]. simpl in Hs.
  specialize (IH (S i) s1
    (if bool_decide (Phase a ≠ "RUNNING") then false else b) Hkl).
  destruct (wait_range (S i) l s1 _) as [[s2 b2] o2]. simpl in *.
  by rewrite transitions_of_app, Hs, IH.
Qed.

Lemma wait_status_own i a st :
  transitions_of (Name a) (wait_status i a st).2
  = if status_differs st a
    then [Printf fmt_instance_is [Str (Name a); Str (ToLower (Phase a))]]
    else [].
Proof.
  unfold wait_status. destruct (status_differs st a); [|done]. simpl.
  unfold transitions_of. rewrite filter_app.
  rewrite (filter_cons_True _ (Printf _ _)).
  - by destruct (bool_decide (i = 0)%nat).
  - simpl. by rewrite (bool_decide_eq_true_2 (Name a = Name a)) by done.
Qed.

Lemma wait_range_key i pre a post st b :
  Name a ∉ Name <$> pre → Name a ∉ Name <$> post →
  transitions_of (Name a) (wait_range i (pre ++ a :: post) st b).2
  = if status_differs st a
    then [Printf fmt_instance_is [Str (Name a); Str (ToLower (Phase a))]]
    else [].
Proof.
  intros Hpre Hpost. rewrite wait_range_app.
  pose proof (wait_range_other i pre st b (Name a) Hpre) as Ho.
  pose proof (wait_range_lookup i pre st b (Name a)) as Hlk.
  destruct (wait_range i pre st b) as [[s0 b0] out0]. simpl in Ho, Hlk.
  rewrite (proj2 (last_phase_None pre (Name a)) Hpre) in Hlk.
  assert (s0 !! Name a = st !! Name a) as Hsame
    by (rewrite Hlk; by destruct (st !! Name a)).
  assert (status_differs s0 a = status_differs st a) as Hd
    by (unfold status_differs; by rewrite Hsame).
  cbn [wait_range].
  pose proof (wait_status_own (i + length pre) a s0) as Hown.
  destruct (wait_status (i + length pre) a s0) as [s0' o1]. simpl in Hown.
  set (b1 := if bool_decide (Phase a ≠ "RUNNING") then false else b0).
  pose proof (wait_range_other (S (i + length pre)) post s0' b1
                (Name a) Hpost) as Ho'.
  destruct (wait_range _ post s0' b1) as [[s2 b2] o2]. simpl in *.
  by rewrite !transitions_of_app, Ho, Ho', Hown, Hd, app_nil_r.
Qed.

Lemma went_away_nothing_fetched keys new :
  went_away keys [] new = (new, went_away_line <$> keys).
Proof.
  induction keys as [|c keys IH]; [done|].
  cbn [went_away find_instance]. by rewrite IH.
Qed.

Lemma last_phase_once pre a post :
  Name a ∉ Name <$> post →
  last_phase (pre ++ a :: post) (Name a) = Some (Phase a).
Proof.
  intros Hpost. induction pre as [|x pre IH]; simpl.
  - rewrite (proj2 (last_phase_None post (Name a)) Hpost).
    by rewrite bool_decide_eq_true_2.
  - by rewrite IH.
Qed.

Lemma wait_cycle_key pre a post st :
  Name a ∉ Name <$> pre → Name a ∉ Name <$> post →
  let cycle := wait_cycle st (Fetched (pre ++ a :: post)) in
  transitions_of (Name a) cycle.2
  = (if status_differs st a
     then [Printf fmt_instance_is [Str (Name a); Str (ToLower (Phase a))]]
     else [])
  ∧ state_of cycle.1 !! Name a = Some (Phase a).
Proof.
  intros Hpre Hpost cycle. subst cycle.
  destruct (wait_cycle_fetched st (pre ++ a :: post)) as [-> ->].
  split; [by apply wait_range_key|].
  rewrite wait_range_lookup, last_phase_once by done.
  by destruct (st !! Name a).
Qed.

(** C4.  Empty fetch.  The bring-up monitor skips a cycle whose fetch is
    empty: it prints nothing and keeps its map.  The continuous monitor
    has no such guard: with an empty fetch its first cycle ([i == 0])
    prints nothing and keeps its map, and every other cycle prints one
    [went away] line for each recorded name and empties the map. *)
Theorem empty_fetch_cycle :
  (∀ st, wait_cycle st (Fetched []) = (Continue st, []))
  ∧ (∀ s env, listing env = Fetched [] → st_i s = 0 →
       logs_cycle s env
       = (Continue {| st_time := now env; st_status := st_status s;
                      st_i := wrap64 (st_i s + 1) |}, []))
  ∧ (∀ s env, listing env = Fetched [] → st_i s ≠ 0 → range_ok env →
       logs_cycle s env
       = (Continue {| st_time := now env; st_status := ∅;
                      st_i := wrap64 (st_i s + 1) |},
          went_away_line <$> range_order env (st_status s))
       ∧ ∀ k, transitions_of k (logs_cycle s env).2
              = if bool_decide (is_Some (st_status s !! k))
                then [went_away_line k] else []).
Proof.
  split; [done|]. split.
  - intros s env Hl Hi. unfold logs_cycle. rewrite Hl. simpl.
    by rewrite bool_decide_eq_false_2 by (by intros []).
  - intros s env Hl Hi Hr.
    assert (logs_cycle s env
            = (Continue {| st_time := now env; st_status := ∅;
                           st_i := wrap64 (st_i s + 1) |},
               went_away_line <$> range_order env (st_status s))) as Hc.
    { unfold logs_cycle. rewrite Hl. simpl.
      rewrite bool_decide_eq_true_2 by done.
      by rewrite went_away_nothing_fetched. }
    split; [done|]. intros k. rewrite Hc. simpl.
    destruct (range_ok_keys env (st_status s) Hr) as [Hnd Hkeys].
    rewrite transitions_of_went_away_lines by done.
    apply (f_equal (λ b : bool, if b then _ else _)).
    apply bool_decide_ext, Hkeys.
Qed.

(** C5.  Appearance.  An instance whose name occurs once in the fetch
    and is missing from the map: the bring-up monitor, on every poll,
    prints exactly one transition line for the name, carrying the phase in
    lower case, and records the phase; the continuous monitor does the same
    with its [New instance] line on every cycle but its first ([i == 0]),
    where it records the phase and prints no transition line. *)
Theorem appearance (pre post : list Instance) (a : Instance) :
  Name a ∉ Name <$> pre → Name a ∉ Name <$> post →
  (∀ st, st !! Name a = None →
     let cycle := wait_cycle st (Fetched (pre ++ a :: post)) in
     transitions_of (Name a) cycle.2
     = [Printf fmt_instance_is [Str (Name a); Str (ToLower (Phase a))]]
     ∧ state_of cycle.1 !! Name a = Some (Phase a))
  ∧ (∀ s env s' out,
       range_ok env → listing env = Fetched (pre ++ a :: post) →
       st_status s !! Name a = None →
       logs_cycle s env = (Continue s', out) →
       (st_i s ≠ 0 →
        transitions_of (Name a) out
        = [Printf fmt_new_instance [Str (Name a); Str (ToLower (Phase a))]])
       ∧ (st_i s = 0 → transitions out = [])
       ∧ st_status s' !! Name a = Some (Phase a)).
Proof.
  intros Hpre Hpost. split.
  - intros st Hst cycle. subst cycle.
    destruct (wait_cycle_key pre a post st Hpre Hpost) as [-> ->].
    split; [|done].
    rewrite (proj2 (status_differs_spec st a)); [done|]. by left.
  - intros s env s' out Hr Hl Hst Hc.
    pose proof (last_phase_once pre a post Hpost) as Hlast.
    split; [|split].
    + intros Hi.
      rewrite (logs_cycle_transitions _ _ _ _ _ _ Hr Hi Hl Hc).
      destruct (logs_cycle_inv _ _ _ _ _ Hl Hc) as (s1 & out1 & _ & Hrg & _).
      rewrite logs_range_key by (done || (exists s1; by rewrite Hrg)).
      rewrite bool_decide_eq_false_2 by (rewrite Hlast; by intros [_ ?]).
      rewrite app_nil_r, logs_status_out, Hst.
      by rewrite bool_decide_eq_false_2.
    + intros Hi. by apply (logs_cycle_first _ _ _ _ _ (Name a) Hi Hl Hc).
    + destruct (decide (st_i s = 0)) as [Hi|Hi].
      * destruct (logs_cycle_first _ _ _ _ _ (Name a) Hi Hl Hc) as [_ ->].
        by rewrite Hlast, Hst.
      * by rewrite (logs_cycle_status _ _ _ _ _ _ Hr Hi Hl Hc).
Qed.

(** C6.  Change.  An instance whose name occurs once in the fetch and is
    recorded with another phase: the bring-up monitor, and the continuous
    monitor on every cycle but its first, print exactly one transition
    line for the name.  The line carries the name and the new phase in
    lower case; the phase recorded before is no part of it. *)
Theorem change_event (pre post : list Instance) (a : Instance) (old : string) :
  Name a ∉ Name <$> pre → Name a ∉ Name <$> post → old ≠ Phase a →
  (∀ st, st !! Name a = Some old →
     let cycle := wait_cycle st (Fetched (pre ++ a :: post)) in
     transitions_of (Name a) cycle.2
     = [Printf fmt_instance_is [Str (Name a); Str (ToLower (Phase a))]]
     ∧ state_of cycle.1 !! Name a = Some (Phase a))
  ∧ (∀ s env s' out,
       range_ok env → listing env = Fetched (pre ++ a :: post) →
       st_i s ≠ 0 → st_status s !! Name a = Some old →
       logs_cycle s env = (Continue s', out) →
       transitions_of (Name a) out
       = [Printf fmt_instance_now [Str (Name a); Str (ToLower (Phase a))]]
       ∧ st_status s' !! Name a = Some (Phase a)).
Proof.
  intros Hpre Hpost Hold. split.
  - intros st Hst cycle. subst cycle.
    destruct (wait_cycle_key pre a post st Hpre Hpost) as [-> ->].
    split; [|done].
    rewrite (proj2 (status_differs_spec st a)); [done|]. right. by exists old.
  - intros s env s' out Hr Hl Hi Hst Hc.
    pose proof (last_phase_once pre a post Hpost) as Hlast.
    split.
    + rewrite (logs_cycle_transitions _ _ _ _ _ _ Hr Hi Hl Hc).
      destruct (logs_cycle_inv _ _ _ _ _ Hl Hc) as (s1 & out1 & _ & Hrg & _).
      rewrite logs_range_key by (done || (exists s1; by rewrite Hrg)).
      rewrite bool_decide_eq_false_2 by (rewrite Hlast; by intros [_ ?]).
      rewrite app_nil_r, logs_status_out, Hst.
      rewrite bool_decide_eq_false_2 by done.
      by rewrite bool_decide_eq_true_2.
    + by rewrite (logs_cycle_status _ _ _ _ _ _ Hr Hi Hl Hc).
Qed.

(** A cycle that does not fetch [k], started without [k] in the map,
    prints nothing about [k] and ends without [k] in the map. *)
Lemma logs_cycle_quiet s env l s' out k :
  range_ok env → listing env = Fetched l → k ∉ Name <$> l →
  st_status s !! k = None →
  logs_cycle s env = (Continue s', out) →
  transitions_of k out = [] ∧ st_status s' !! k = None.
Proof.
  intros Hr Hl Hk Hst Hc.
  pose proof (proj2 (last_phase_None l k) Hk) as Hlast.
  destruct (decide (st_i s = 0)) as [Hi|Hi].
  - destruct (logs_cycle_first _ _ _ _ _ k Hi Hl Hc) as [Ht ->].
    split; [by apply transitions_of_sub | by rewrite Hlast, Hst].
  - split.
    + rewrite (logs_cycle_transitions _ _ _ _ _ _ Hr Hi Hl Hc).
      rewrite logs_range_other by done.
      rewrite bool_decide_eq_false_2; [done|].
      rewrite Hst. by intros [[? ?] _].
    + by rewrite (logs_cycle_status _ _ _ _ _ _ Hr Hi Hl Hc).
Qed.

Lemma logs_loop_continue s env rest s2 out n :
  logs_loop s (env :: rest) = (Continue s2, out, n) →
  ∃ s1 out1 out2 m,
    logs_cycle s env = (Continue s1, out1)
    ∧ logs_loop s1 rest = (Continue s2, out2, m)
    ∧ out = out1 ++ out2.
Proof.
  cbn [logs_loop].
  destruct (logs_cycle s env) as [[s1|s1|s1] out1]; try done.
  destruct (logs_loop s1 rest) as [[o out2] m] eqn:E.
  intros [= -> <- _]. by exists s1, out1, out2, m.
Qed.

Lemma logs_loop_quiet s envs s2 out n k :
  Forall (λ e, range_ok e ∧ ∃ l, listing e = Fetched l ∧ k ∉ Name <$> l)
    envs →
  st_status s !! k = None →
  logs_loop s envs = (Continue s2, out, n) →
  transitions_of k out = [] ∧ st_status s2 !! k = None.
Proof.
  intros Hq. revert s out n.
  induction Hq as [|e envs (Hr & l & Hl & Hk) _ IH]; intros s out n Hst.
  - by intros [= <- <- _].
  - intros (s1 & out1 & out2 & m & Hc & Hrest & ->)%logs_loop_continue.
    destruct (logs_cycle_quiet _ _ _ _ _ _ Hr Hl Hk Hst Hc) as [Ht1 Hs1].
    destruct (IH _ _ _ Hs1 Hrest) as [Ht2 Hs2].
    by rewrite transitions_of_app, Ht1, Ht2.
Qed.

Lemma first_occurrence (l : list Instance) k :
  k ∈ Name <$> l →
  ∃ pre a post, l = pre ++ a :: post ∧ Name a = k ∧ k ∉ Name <$> pre.
Proof.
  induction l as [|x l IH]; [by intros ?%elem_of_nil|].
  rewrite fmap_cons. intros Hin.
  destruct (decide (Name x = k)) as [Hx|Hx].
  - exists [], x, l. split; [done|]. split; [done|]. apply not_elem_of_nil.
  - apply elem_of_cons in Hin as [Hin|Hin]; [congruence|].
    destruct (IH Hin) as (pre & a & post & -> & Ha & Hpre).
    exists (x :: pre), a, post. split; [done|]. split; [done|].
    rewrite fmap_cons. apply not_elem_of_cons. split; [congruence | done].
Qed.

(** The first instance of a name missing from the map causes the one
    [New instance] line of the loop for that name. *)
Lemma logs_range_first env t i pre a post st s1 out1 :
  i ≠ 0 → Name a ∉ Name <$> pre → st !! Name a = None →
  logs_range env t i (pre ++ a :: post) st = (Continue s1, out1) →
  lines_of fmt_new_instance (Name a) out1
  = [Printf fmt_new_instance [Str (Name a); Str (ToLower (Phase a))]].
Proof.
  intros Hi Hpre Hst. rewrite logs_range_app.
  set (env1 := Nat.iter (length pre) later_calls env).
  pose proof (logs_range_other env t i pre st (Name a) Hpre) as Ho.
  pose proof (logs_range_lookup env t i pre st) as Hlk.
  destruct (logs_range env t i pre st) as [[s0|s0|s0] out0]; try done.
  specialize (Hlk s0 out0 (Name a) eq_refl).
  rewrite (proj2 (last_phase_None pre (Name a)) Hpre), Hst in Hlk.
  simpl in Ho, Hlk. cbn [logs_range].
  pose proof (logs_status_out i a s0) as Hout.
  pose proof (logs_status_lookup i a s0 (Name a)) as Hl1.
  destruct (logs_status i a s0) as [s0' o1]. simpl in Hout, Hl1.
  rewrite Hlk, bool_decide_eq_false_2 in Hout by done.
  rewrite bool_decide_eq_true_2 in Hl1 by done.
  destruct (logs_answer env1 0%nat a t) as [logs|err]; [|done].
  pose proof (logs_range_known (later_calls env1) t i post s0' (Name a))
    as Hpost.
  destruct (logs_range (later_calls env1) t i post s0') as [o o3].
  simpl in Hpost.
  intros [= -> <-]. rewrite !lines_of_app.
  assert (fmt_new_instance ∈ transition_formats) as Hf
    by (unfold transition_formats; rewrite !elem_of_cons; tauto).
  rewrite (lines_of_sub _ _ out0 Hf Ho), Hpost by (by eexists).
  rewrite (lines_of_sub _ _ (log_lines a logs) Hf)
    by apply transitions_of_sub, log_lines_transitions.
  rewrite Hout. unfold lines_of. cbn [union option_union union_with
    option_union_with]. rewrite filter_cons. simpl.
  by rewrite (bool_decide_eq_true_2 (Name a = Name a)) by done.
Qed.

(** C8.  Disappearance (continuous monitor).  On a cycle that is not the
    first ([i != 0]), a name recorded in the map and missing from the
    fetch gets exactly one [went away] line and is dropped from the map
    at the end of the cycle.  While later fetches lack the name nothing is
    printed about it and it stays out of the map; the next fetch in which
    it occurs gets exactly one [New instance] line for it, carrying the
    phase of its first instance, and records it again. *)
Theorem disappearance (s s1 : LogsState) (env : LogsEnv)
    (instances : list Instance) (k v : string) (out : list Line) :
  range_ok env → st_i s ≠ 0 →
  listing env = Fetched instances →
  st_status s !! k = Some v → k ∉ Name <$> instances →
  logs_cycle s env = (Continue s1, out) →
  transitions_of k out = [went_away_line k]
  ∧ st_status s1 !! k = None
  ∧ ∀ quiet s2 outq n,
      Forall (λ e, range_ok e ∧ ∃ l, listing e = Fetched l ∧ k ∉ Name <$> l)
        quiet →
      logs_loop s1 quiet = (Continue s2, outq, n) →
      transitions_of k outq = []
      ∧ st_status s2 !! k = None
      ∧ ∀ env' back s3 out',
          range_ok env' → st_i s2 ≠ 0 →
          listing env' = Fetched back → k ∈ Name <$> back →
          logs_cycle s2 env' = (Continue s3, out') →
          ∃ pre a post,
            back = pre ++ a :: post ∧ Name a = k ∧ (k ∉ Name <$> pre)
            ∧ lines_of fmt_new_instance k out'
              = [Printf fmt_new_instance [Str k; Str (ToLower (Phase a))]]
            ∧ is_Some (st_status s3 !! k).
Proof.
  intros Hr Hi Hl Hst Hk Hc.
  pose proof (proj2 (last_phase_None instances k) Hk) as Hlast.
  assert (st_status s1 !! k = None) as Hs1
    by by rewrite (logs_cycle_status _ _ _ _ _ _ Hr Hi Hl Hc).
  split; [|split; [done|]].
  - rewrite (logs_cycle_transitions _ _ _ _ _ _ Hr Hi Hl Hc).
    rewrite logs_range_other by done.
    rewrite bool_decide_eq_true_2; [done|]. split; [by eexists | done].
  - intros quiet s2 outq n Hq Hloop.
    destruct (logs_loop_quiet _ _ _ _ _ _ Hq Hs1 Hloop) as [Htq Hs2].
    split; [done|]. split; [done|].
    intros env' back s3 out' Hr' Hi' Hl' Hin Hc'.
    destruct (first_occurrence back k Hin) as (pre & a & post & -> & <- & Hpre).
    exists pre, a, post. split; [done|]. split; [done|]. split; [done|].
    assert (fmt_new_instance ∈ transition_formats) as Hf
      by (unfold transition_formats; rewrite !elem_of_cons; tauto).
    split.
    + destruct (logs_cycle_inv _ _ _ _ _ Hl' Hc')
        as (r1 & o1 & o2 & Hrg & -> & _ & _ & _ & Hw).
      specialize (Hw Hi'). apply (f_equal snd) in Hw. simpl in Hw.
      rewrite lines_of_app.
      rewrite (logs_range_first _ _ _ _ _ _ _ _ _ Hi' Hpre Hs2 Hrg).
      rewrite (lines_of_sub _ _ o2 Hf); [done|].
      rewrite Hw. destruct (range_ok_keys env' r1 Hr') as [Hnd _].
      rewrite went_away_transitions by done.
      rewrite bool_decide_eq_false_2; [done|]. intros [_ E].
      apply last_phase_None in E. apply E.
      rewrite fmap_app, fmap_cons, elem_of_app, elem_of_cons. tauto.
    + rewrite (logs_cycle_status _ _ _ _ _ _ Hr' Hi' Hl' Hc').
      destruct (last_phase (pre ++ a :: post) (Name a)) as [p|] eqn:E;
        [by eexists|].
      apply last_phase_None in E. exfalso. apply E.
      rewrite fmap_app, fmap_cons, elem_of_app, elem_of_cons. tauto.
Qed.

(** C9.  Fetch errors are fatal.  In each of the three loops a failed
    fetch ends the run in that very cycle, and the polls that would follow
    are never made.  What the run prints ends with the three lines of the
    report: the message that names the failed fetch (and, for instance
    logs, the instance) and holds the error, then [Done], then an empty
    line.  Before the report stand only the lines of the calls of that
    cycle that were answered before the failed one, none of the three
    lines is a transition line, and the map and the watermark are those
    held when the failed fetch was made.  The failed call of
    [GetInstanceLogs] is call number [length pre] of its cycle: the calls
    before it, also those for an instance of the same name, were
    answered. *)
Theorem fetch_errors_are_fatal (err : string) :
  let report (format : string) (args : list Arg) : list Line :=
    [Printf (format +:+ newline) args; Println [Str "Done"]; Println []] in
  (∀ st rest,
     wait_loop st (FetchError err :: rest)
     = (Exit st, report "Error querying instance status: %s" [Str err],
        1%nat))
  ∧ (∀ w rest,
       waf_loop w (FetchError err :: rest)
       = (Exit w, report "Error getting WAF requests: %s" [Str err], 1%nat))
  ∧ (∀ s env rest,
       listing env = FetchError err →
       logs_loop s (env :: rest)
       = (Exit s, report "Error querying workload instances: %s" [Str err],
          1%nat))
  ∧ (∀ s env rest pre a post s0 out0,
       listing env = Fetched (pre ++ a :: post) →
       logs_range env (st_time s) (st_i s) pre (st_status s)
       = (Continue s0, out0) →
       logs_answer env (length pre) a (st_time s) = FetchError err →
       logs_loop s (env :: rest)
       = (Exit {| st_time := st_time s;
                  st_status := (logs_status (st_i s) a s0).1;
                  st_i := st_i s |},
          out0 ++ (logs_status (st_i s) a s0).2
          ++ report "Error querying %s instance logs: %s"
               [Str (Name a); Str err],
          1%nat))
  ∧ (∀ format args,
       format ∈ error_formats → transitions (report format args) = []).
Proof.
  intros report.
  split; [done|]. split; [done|]. split; [|split].
  - intros s env rest Hl. cbn [logs_loop]. unfold logs_cycle. by rewrite Hl.
  - intros s env rest pre a post s0 out0 Hl Hpre Herr.
    cbn [logs_loop]. unfold logs_cycle.
    rewrite Hl, logs_range_app, Hpre. cbn [logs_range].
    destruct (logs_status (st_i s) a s0) as [s0' o1].
    rewrite logs_answer_later, Nat.add_0_r, Herr. done.
  - intros format args. apply transitions_donef.
Qed.

(** [i] counts the completed cycles as long as it does not overflow, so
    in a run of fewer than [2 ^ 63] cycles [i == 0] holds on the first
    cycle only. *)
Lemma logs_loop_counter s envs s' out n :
  0 ≤ st_i s → st_i s + Z.of_nat (length envs) < 2 ^ 63 →
  logs_loop s envs = (Continue s', out, n) →
  st_i s' = st_i s + Z.of_nat (length envs).
Proof.
  revert s out n. induction envs as [|env envs IH]; intros s out n Hlo Hhi.
  - intros [= <- _ _]. simpl. lia.
  - intros (s1 & out1 & out2 & m & Hc & Hrest & _)%logs_loop_continue.
    assert (st_i s1 = st_i s + 1) as Hi.
    { revert Hc. unfold logs_cycle.
      destruct (listing env) as [instances|err]; [|done].
      destruct (logs_range env _ _ instances _) as [[r|r|r] o]; try done.
      destruct (if bool_decide (st_i s ≠ 0) then _ else _) as [r2 o2].
      intros [= <- _]. simpl. unfold wrap64.
      rewrite length_cons in Hhi. rewrite Z.mod_small; lia. }
    rewrite (IH s1 out2 m); rewrite ?Hi, ?length_cons in *; [lia..|done].
Qed.

(** ** Further properties of the monitors *)

(** X1.  The bring-up monitor never forgets a name: after any run of its
    loop, the names in its map are those it started with together with
    every name fetched by a poll it made; an instance that is no longer
    fetched stays recorded. *)
Theorem bring_up_never_forgets (instanceStatus : gmap string string)
    (polls : list (fetched (list Instance))) (k : string) :
  is_Some (state_of (wait_loop instanceStatus polls).1.1 !! k)
  ↔ is_Some (instanceStatus !! k)
    ∨ ∃ j l, (j < (wait_loop instanceStatus polls).2)%nat
             ∧ polls !! j = Some (Fetched l) ∧ k ∈ Name <$> l.
Proof.
  revert instanceStatus.
  induction polls as [|fetch polls IH]; intros st.
  - simpl. split; [by left|]. intros [?|(j & l & ? & _)]; [done | lia].
  - rewrite wait_loop_cons.
    assert (is_Some (state_of (wait_cycle st fetch).1 !! k)
            ↔ is_Some (st !! k)
              ∨ ∃ l, fetch = Fetched l ∧ k ∈ Name <$> l) as Hcycle.
    { destruct fetch as [l|err].
      - destruct (wait_cycle_fetched st l) as [-> _].
        rewrite wait_range_lookup.
        destruct (last_phase l k) as [p|] eqn:E.
        + split; [|by destruct (st !! k); eexists].
          intros _. right. exists l. split; [done|].
          destruct (decide (k ∈ Name <$> l)) as [|N]; [done|].
          apply last_phase_None in N. congruence.
        + apply last_phase_None in E.
          split.
          * intros H. left. by destruct (st !! k).
          * intros [H|(l' & [= <-] & ?)]; [by destruct (st !! k) | done].
      - simpl. split; [by left|]. by intros [?|(l & ? & _)]. }
    destruct (wait_cycle st fetch) as [[s1|s1|s1] out1] eqn:Hc; simpl in Hcycle.
    + specialize (IH s1). destruct (wait_loop s1 polls) as [[o out'] n].
      simpl in *. rewrite IH, Hcycle. split.
      * intros [[?|(l & -> & ?)]|(j & l & ? & ? & ?)].
        -- by left.
        -- right. exists 0%nat, l. split; [lia | done].
        -- right. exists (S j), l. split; [lia | done].
      * intros [?|(j & l & Hj & Hl & ?)]; [by left; left|].
        destruct j as [|j]; simpl in Hl.
        -- injection Hl as ->. left. right. by exists l.
        -- right. exists j, l. split; [lia | done].
    + simpl. rewrite Hcycle. split.
      * intros [?|(l & -> & ?)]; [by left|].
        right. exists 0%nat, l. split; [lia | done].
      * intros [?|(j & l & Hj & Hl & ?)]; [by left|].
        destruct j as [|j]; [|lia]. simpl in Hl. injection Hl as ->.
        right. by exists l.
    + simpl. rewrite Hcycle. split.
      * intros [?|(l & -> & ?)]; [by left|].
        right. exists 0%nat, l. split; [lia | done].
      * intros [?|(j & l & Hj & Hl & ?)]; [by left|].
        destruct j as [|j]; [|lia]. simpl in Hl. injection Hl as ->.
        right. by exists l.
Qed.



Lemma polls_ok_drop w polls n :
  polls_ok w polls →
  polls_ok (watermark_after w (take n polls)) (drop n polls).
Proof.
  revert w polls. induction n as [|n IH]; intros w polls Hok; [done|].
  destruct polls as [|p polls]; [done|]. destruct Hok as [_ Hrest].
  apply (IH _ _ Hrest).
Qed.

Lemma watermark_after_mono w polls :
  polls_ok w polls → w ≤ watermark_after w polls.
Proof.
  revert w. induction polls as [|p polls IH]; intros w Hok; [simpl; lia|].
  destruct Hok as [Hp Hrest].
  pose proof (next_watermark_mono w p Hp).
  pose proof (IH _ Hrest). unfold watermark_after in *. simpl. lia.
Qed.

(** X3.  When every poll returns only requests at or after the watermark
    it was passed, in ascending order, the watermark of the WAF monitor
    never moves back over a run.  The code itself takes the last request
    of a fetch as it comes: a fetch whose last request is more than a
    second older than the watermark moves the watermark back. *)
Theorem watermark_never_moves_back (w : Time) :
  (∀ (polls : list (list WAFRequest)) (i j : nat),
     polls_ok w polls → (i ≤ j)%nat →
     watermark_after w (take i polls) ≤ watermark_after w (take j polls))
  ∧ (∀ (requests : list WAFRequest) (r : WAFRequest),
       RequestTime r + Second < w →
       next_watermark w (requests ++ [r]) < w).
Proof.
  split.
  - intros polls i j Hok Hij.
    replace j with (i + (j - i))%nat by lia.
    rewrite <- take_take_drop.
    unfold watermark_after at 2. rewrite foldl_app.
    apply (watermark_after_mono _ (take (j - i) (drop i polls))).
    pose proof (polls_ok_drop w polls i Hok) as Hd.
    rewrite <- (take_drop (j - i) (drop i polls)) in Hd.
    clear -Hd. revert Hd. generalize (watermark_after w (take i polls)).
    generalize (take (j - i) (drop i polls)) as front.
    generalize (drop (j - i) (drop i polls)) as back.
    intros back front. induction front as [|p front IH]; intros w0 Hd; [done|].
    destruct Hd as [Hp Hrest]. split; [done|]. by apply IH.
  - intros requests r Hr. rewrite next_watermark_spec, last_snoc. simpl.
    unfold Add. lia.
Qed.





(** X5.  After every completed cycle of the continuous monitor that
    starts with [i != 0] or with an empty map (as the first cycle does),
    the map is exactly the fetch: the names recorded are the names
    fetched, each with the phase of its last instance, whatever the map
    held before. *)
Theorem reconciled_map_is_the_fetch (s s' : LogsState) (env : LogsEnv)
    (instances : list Instance) (out : list Line) :
  range_ok env → listing env = Fetched instances →
  st_i s ≠ 0 ∨ st_status s = ∅ →
  logs_cycle s env = (Continue s', out) →
  (∀ k, st_status s' !! k = last_phase instances k)
  ∧ (∀ k, is_Some (st_status s' !! k) ↔ k ∈ Name <$> instances)
  ∧ (∀ a, a ∈ instances → keyed instances →
          st_status s' !! Name a = Some (Phase a)).
Proof.
  intros Hr Hl Hstart Hc.
  assert (∀ k, st_status s' !! k = last_phase instances k) as Hmap.
  { intros k. destruct (decide (st_i s = 0)) as [Hi|Hi].
    - destruct Hstart as [?|Hempty]; [done|].
      destruct (logs_cycle_first _ _ _ _ _ k Hi Hl Hc) as [_ ->].
      rewrite Hempty, lookup_empty. by destruct (last_phase instances k).
    - by apply (logs_cycle_status _ _ _ _ _ _ Hr Hi Hl Hc). }
  split; [done|]. split.
  - intros k. rewrite Hmap.
    destruct (last_phase instances k) as [p|] eqn:E.
    + split; [|by eexists]. intros _.
      destruct (decide (k ∈ Name <$> instances)) as [|N]; [done|].
      apply last_phase_None in N. congruence.
    + apply last_phase_None in E. split; [by intros [? ?] | done].
  - intros a Ha Hk. rewrite Hmap. by apply keyed_last_phase.
Qed.



Lemma wrap64_add a b : wrap64 (wrap64 a + b) = wrap64 (a + b).
Proof.
  unfold wrap64.
  replace ((a + 2 ^ 63) mod 2 ^ 64 - 2 ^ 63 + b + 2 ^ 63)
    with ((a + 2 ^ 63) mod 2 ^ 64 + b) by lia.
  rewrite Zplus_mod_idemp_l. do 2 f_equal. lia.
Qed.

Lemma logs_loop_wrap s envs s' out n :
  logs_loop s envs = (Continue s', out, n) →
  wrap64 (st_i s') = wrap64 (st_i s + Z.of_nat (length envs))
  ∧ (envs ≠ [] → st_i s' = wrap64 (st_i s + Z.of_nat (length envs))).
Proof.
  revert s out n. induction envs as [|env envs IH]; intros s out n.
  - intros [= <- _ _]. simpl. by rewrite Z.add_0_r.
  - intros (s1 & out1 & out2 & m & Hc & Hrest & _)%logs_loop_continue.
    assert (st_i s1 = wrap64 (st_i s + 1)) as Hi.
    { revert Hc. unfold logs_cycle.
      destruct (listing env) as [instances|err]; [|done].
      destruct (logs_range env _ _ instances _) as [[r|r|r] o]; try done.
      destruct (if bool_decide (st_i s ≠ 0) then _ else _) as [r2 o2].
      by intros [= <- _]. }
    destruct (IH _ _ _ Hrest) as [Hw Hne].
    assert (wrap64 (st_i s1 + Z.of_nat (length envs))
            = wrap64 (st_i s + Z.of_nat (length (env :: envs)))) as Hstep.
    { rewrite Hi, wrap64_add, length_cons. f_equal. lia. }
    split.
    + by rewrite Hw.
    + intros _. destruct envs as [|env2 envs].
      * injection Hrest as <- _ _. rewrite Hi. simpl. done.
      * rewrite Hne by done. done.
Qed.

(** X7.  The branch for the first run ([i == 0]) of the continuous
    monitor is taken once: after [n] completed cycles, [0 < n < 2 ^ 64],
    the counter is [n] wrapped to 64 bits and is not zero, so the 64-bit
    overflow of [i] does not bring the silent first cycle back before
    [2 ^ 64] cycles have run. *)
Theorem first_run_branch_once (now0 : Time) (envs : list LogsEnv)
    (s' : LogsState) (out : list Line) (n : nat) :
  displayInstanceLogs now0 envs = (Continue s', out, n) →
  envs ≠ [] → Z.of_nat (length envs) < 2 ^ 64 →
  st_i s' = wrap64 (Z.of_nat (length envs)) ∧ st_i s' ≠ 0.
Proof.
  intros Hrun Hne Hlen. unfold displayInstanceLogs in Hrun.
  destruct (logs_loop_wrap _ _ _ _ _ Hrun) as [_ Hi].
  specialize (Hi Hne). change (st_i (logs_start now0)) with 0 in Hi.
  rewrite Z.add_0_l in Hi. split; [done|].
  rewrite Hi. unfold wrap64.
  assert (0 < Z.of_nat (length envs)) as Hpos
    by (destruct envs; [done | rewrite length_cons; lia]).
  destruct (decide (Z.of_nat (length envs) < 2 ^ 63)) as [Hlo|Hhi].
  - rewrite Z.mod_small by lia. lia.
  - replace (Z.of_nat (length envs) + 2 ^ 63)
      with (Z.of_nat (length envs) - 2 ^ 63 + 1 * 2 ^ 64) by lia.
    rewrite Z_mod_plus_full, Z.mod_small by lia. lia.
Qed.






(** ** The provisioning run of [main] *)

Ltac unfold_main :=
  unfold main, authenticateToStackPath, findStack, findDomainOnStack,
    provisionComputeWorkload, provisionSite, waitForComputeWorkload_full,
    poll_instances, findDeliveryDomain, setDNSCNAMERecord,
    provisionSSLCertificate, createWAFRules, stopSpinner, startSpinner,
    exit_donef, deref, set_globals, Now, call, write, write_lines,
    mbind, M_bind, mret, M_ret, start.

Ltac simpl_main :=
  cbn -[String.append banner checking_requirements requirements_met
        deploying donef replicate wait_loop].

(** One answer of the world at a time, in the order [main] asks. *)
Ltac step_main :=
  match goal with
  | |- context [match answer_NewClient ?w with _ => _ end] =>
      destruct (answer_NewClient w) as [?cl|?err] eqn:?
  | |- context [match answer_FindStackBySlug ?w with _ => _ end] =>
      destruct (answer_FindStackBySlug w) as [[?s|]|?err] eqn:?
  | |- context [match answer_FindDomainByName ?w with _ => _ end] =>
      destruct (answer_FindDomainByName w) as [[?d|]|?err] eqn:?
  | |- context [match answer_CreateWorkload ?w with _ => _ end] =>
      destruct (answer_CreateWorkload w) as [?wl|?err] eqn:?
  | |- context [match answer_CreateSiteDelivery ?w with _ => _ end] =>
      destruct (answer_CreateSiteDelivery w) as [?st|?err] eqn:?
  | |- context [wait_loop ?s ?p] =>
      destruct (wait_loop s p) as [[[?m|?m|?m] ?out] ?n] eqn:?
  | |- context [match answer_FindSiteDeliveryDomain ?w with _ => _ end] =>
      destruct (answer_FindSiteDeliveryDomain w) as [?dd|?err] eqn:?
  | |- context [match answer_SetDNSCNAME ?w with _ => _ end] =>
      destruct (answer_SetDNSCNAME w) as [?err|] eqn:?
  | |- context [match answer_RequestFreeSSLCert ?w with _ => _ end] =>
      destruct (answer_RequestFreeSSLCert w) as [?err|] eqn:?
  | |- context [match answer_CreateDemoWAFRules ?w with _ => _ end] =>
      destruct (answer_CreateDemoWAFRules w) as [?err|] eqn:?
  end; simpl_main.

Ltac run_main := unfold_main; simpl_main; repeat step_main.

(** Membership in a list built from conses, appends and [replicate]. *)
Ltac split_elem H :=
  repeat first
    [ apply elem_of_nil in H; destruct H
    | apply elem_of_cons in H as [->|H]
    | apply elem_of_app in H as [H|H]
    | apply elem_of_replicate in H as [-> _] ].

(** X15.  [main] never dereferences a [nil] pointer: each of the
    package-level pointers has been set by an earlier step when a later
    step uses it, whatever the API answers. *)
Theorem main_never_nil (cfg : Config) (w : World) :
  match main cfg w start with
  | NilPanic _ => False
  | _ => True
  end.
Proof. run_main; done. Qed.

(** X16.  Nothing is created on the platform unless the requirements are
    met: a call that creates a workload, a site, a DNS record, a
    certificate or the WAF rules is made only if the authentication
    succeeded and both the stack and the DNS zone were found. *)
Theorem nothing_created_unless_requirements_met (cfg : Config) (w : World) :
  (∃ c, c ∈ called (run_of (main cfg w start)) ∧ creates c = true) →
  (∃ cl, answer_NewClient w = Fetched cl)
  ∧ (∃ s, answer_FindStackBySlug w = Fetched (Some s))
  ∧ (∃ d, answer_FindDomainByName w = Fetched (Some d)).
Proof.
  run_main; intros (c & Hin & Hc);
    try (split; [by eexists|]; split; by eexists);
    split_elem Hin; done.
Qed.


Lemma wait_loop_break_inv st polls s out n :
  wait_loop st polls = (Break s, out, n) →
  ∃ K l, n = S K ∧ polls !! K = Some (Fetched l) ∧ all_running l
    ∧ ∀ j, (j < K)%nat →
        ∃ l', polls !! j = Some (Fetched l') ∧ ¬ all_running l'.
Proof.
  revert st out n. induction polls as [|fetch rest IH]; intros st out n.
  { discriminate. }
  rewrite wait_loop_cons. destruct fetch as [l|err]; [|discriminate].
  destruct (forallb (λ x, bool_decide (Phase x = "RUNNING")) l
            && bool_decide (3 ≤ length l)%nat) eqn:Hb.
  - apply all_running_spec in Hb.
    destruct (wait_cycle_break st l Hb) as (s1 & out1 & ->).
    intros [= <- <- <-]. exists 0%nat, l. do 3 (split; [done|]). lia.
  - assert (¬ all_running l) as Hn
      by (rewrite all_running_spec, Hb; discriminate).
    destruct (wait_cycle_continue st l Hn) as (s1 & out1 & ->).
    destruct (wait_loop s1 rest) as [[o out'] n'] eqn:Hrest.
    intros [= -> <- <-].
    destruct (IH _ _ _ Hrest) as (K & l0 & -> & Hk & Hr & Hearlier).
    exists (S K), l0. do 3 (split; [done|]).
    intros [|j] Hj; [by exists l|]. apply Hearlier. lia.
Qed.

(** X18.  The delivery domain, the DNS record, the certificate and the
    WAF rules wait for the workload: [main] makes one of these calls only
    if some poll of the instances listed at least three instances, all of
    them RUNNING, and every poll before that one succeeded without doing
    so. *)
Theorem later_steps_wait_for_bring_up (cfg : Config) (w : World) (c : Call) :
  c ∈ called (run_of (main cfg w start)) → (7 ≤ step_of c)%nat →
  ∃ K l, answers_GetInstances w !! K = Some (Fetched l) ∧ all_running l
    ∧ ∀ j, (j < K)%nat →
        ∃ l', answers_GetInstances w !! j = Some (Fetched l')
              ∧ ¬ all_running l'.
Proof.
  run_main; intros Hin Hstep;
    try (match goal with
         | H : wait_loop _ _ = (Break _, _, _) |- _ =>
             destruct (wait_loop_break_inv _ _ _ _ _ H)
               as (K & l & _ & ? & ? & ?)
         end; by exists K, l);
    split_elem Hin; simpl in Hstep; lia.
Qed.

(** What a run that reaches the end did about the DNS record. *)
Lemma main_returns_cname (cfg : Config) (w : World) (r : Run) :
  main cfg w start = Returns tt r →
  ∃ s d dd,
    answer_FindSiteDeliveryDomain w = Fetched dd
    ∧ deliveryDomain (globals r) = dd
    ∧ CallSetDNSCNAME s d (ProjectSubDomain cfg) dd ∈ called r.
Proof.
  run_main; try discriminate.
  intros [= <-]. cbn [globals called deliveryDomain].
  exists s, d, dd. split; [reflexivity|]. split; [reflexivity|].
  rewrite <- !app_assoc. do 5 (apply elem_of_cons; right).
  apply elem_of_app. right. apply elem_of_cons. right.
  apply elem_of_cons. by left.
Qed.

(** X19.  A run of [main] that reaches the end has made every call with
    the values the earlier calls returned: the zone is looked up on the
    stack found, the site is created for the anycast IP of the workload
    and the name [sub.domain], the instances polled are those of the
    workload, and the DNS record points the sub-domain to whatever
    [FindSiteDeliveryDomain] returned, be it the empty string.  The
    package-level variables hold these values at the end. *)
Theorem successful_run (cfg : Config) (w : World) (r : Run) :
  main cfg w start = Returns tt r →
  ∃ cl s d wl st dd polls,
    answer_NewClient w = Fetched cl
    ∧ answer_FindStackBySlug w = Fetched (Some s)
    ∧ answer_FindDomainByName w = Fetched (Some d)
    ∧ answer_CreateWorkload w = Fetched wl
    ∧ answer_CreateSiteDelivery w = Fetched st
    ∧ answer_FindSiteDeliveryDomain w = Fetched dd
    ∧ globals r
      = {| client := Some cl; stack := Some s; domain := Some d;
           workload := Some wl; site := Some st; deliveryDomain := dd |}
    ∧ called r
      = [CallNewClient (APIClientID cfg) (APIClientSecret cfg);
         CallFindStackBySlug (StackSlug cfg);
         CallFindDomainByName s (DomainName cfg);
         CallCreateWorkload s;
         CallCreateSiteDelivery s (workload_AnycastIP wl)
           (ProjectSubDomain cfg +:+ "." +:+ DomainName cfg)]
        ++ replicate polls (CallGetInstances s wl)
        ++ [CallFindSiteDeliveryDomain s st;
            CallSetDNSCNAME s d (ProjectSubDomain cfg) dd;
            CallRequestFreeSSLCert s st;
            CallCreateDemoWAFRules s st].
Proof.
  run_main; try discriminate.
  intros [= <-]. cbn [globals called]. do 7 eexists.
  do 7 (split; [reflexivity|]). by rewrite <- !app_assoc.
Qed.






End Monitors.

(** * Examples

    The theorems applied to sample inputs, with Go's library functions
    instantiated by [ascii_ToLower] and [split_lines]. *)

Lemma sample_env_range_ok l : range_ok (sample_env l).
Proof. intros m. reflexivity. Defined.

(** The diff rule on the fetch [A: PENDING, B: RUNNING] from the empty
    map: [B] is met after [A] was recorded, and the repeated fetch is
    silent. *)
Lemma per_item_diff_rule_witness :
  let A := sample_instance "A" "PENDING" in
  let B := sample_instance "B" "RUNNING" in
  keyed [A; B]
  ∧ (∃ s0 r0 out0 s1 out1 out2,
       wait_range ascii_ToLower 0 [A] ∅ true = (s0, r0, out0)
       ∧ wait_status ascii_ToLower 1 B s0 = (s1, out1)
       ∧ (wait_cycle ascii_ToLower ∅ (Fetched [A; B])).2
         = out0 ++ out1 ++ out2
       ∧ (recorded_differs s0 B
          ↔ transitions out1
            = [Printf fmt_instance_is [Str "B"; Str "running"]]
            ∧ s1 = <["B" := "RUNNING"]> s0)
       ∧ (¬ recorded_differs s0 B → out1 = [] ∧ s1 = s0))
  ∧ (wait_cycle ascii_ToLower
       (state_of (wait_cycle ascii_ToLower ∅ (Fetched [A; B])).1)
       (Fetched [A; B])).2 = [].
Proof.
  intros A B.
  assert (keyed [A; B]) as Hk.
  { apply NoDup_keyed. apply (bool_decide_unpack _). vm_compute. exact I. }
  split; [exact Hk|]. split.
  - exact (proj1 (per_item_diff_rule ascii_ToLower ∅ [A; B]) [A] B [] eq_refl).
  - exact (proj1 (proj2 (per_item_diff_rule ascii_ToLower ∅ [A; B]) Hk)).
Defined.

(** [A] fetched as PENDING and as RUNNING in one cycle. *)
Lemma duplicate_names_two_lines_witness :
  let a := sample_instance "A" "PENDING" in
  let b := sample_instance "A" "RUNNING" in
  let cycle := wait_cycle ascii_ToLower ∅ (Fetched [a; b]) in
  transitions_of "A" cycle.2
  = [Printf fmt_instance_is [Str "A"; Str "pending"];
     Printf fmt_instance_is [Str "A"; Str "running"]]
  ∧ transitions cycle.2 = transitions_of "A" cycle.2
  ∧ state_of cycle.1 !! "A" = Some "RUNNING".
Proof.
  intros a b.
  apply (duplicate_names_two_lines ascii_ToLower ∅ a b).
  - reflexivity.
  - discriminate.
  - rewrite lookup_empty. discriminate.
Defined.

(** One running instance, then three: the loop leaves after the second
    poll and never makes the third. *)
Lemma bring_up_termination_witness :
  let one := [sample_instance "A" "RUNNING"] in
  let three := [sample_instance "A" "RUNNING"; sample_instance "B" "RUNNING";
                sample_instance "C" "RUNNING"] in
  let polls := [one; three; []] in
  (∃ s out, wait_loop ascii_ToLower ∅ (Fetched <$> polls)
            = (Break s, out, 2%nat))
  ∧ (∀ j, (j ≤ 1)%nat →
       ∃ s out, wait_loop ascii_ToLower ∅ (Fetched <$> take j polls)
                = (Continue s, out, j)).
Proof.
  intros one three polls.
  apply (bring_up_termination ascii_ToLower ∅ polls 1 three).
  - reflexivity.
  - split; [simpl; lia | repeat constructor].
  - intros j earlier Hj Hlook [Hlen _].
    destruct j as [|j]; [|lia]. injection Hlook as <-. simpl in Hlen. lia.
Defined.

(** Two polls that respect the watermark they were passed. *)
Lemma sample_polls_ok :
  polls_ok 0 [[sample_request 5; sample_request 6; sample_request 7];
              [sample_request 1000000007; sample_request 1000000009]].
Proof.
  cbn [polls_ok]. rewrite !next_watermark_spec. unfold poll_ok.
  repeat split; repeat constructor; simpl; unfold Add, Second; lia.
Defined.

(** Requests at 5 ns, 6 ns and 7 ns move the watermark to 7 ns plus one
    second. *)
Lemma watermark_advance_witness :
  let r1 := sample_request 5 in
  let r2 := sample_request 6 in
  let r3 := sample_request 7 in
  let later := [sample_request 1000000007; sample_request 1000000009] in
  let polls := [[r1; r2; r3]; later] in
  (∃ r, last [r1; r2; r3] = Some r
        ∧ waf_cycle 0 (Fetched [r1; r2; r3])
          = (Continue (Add (RequestTime r) Second),
             waf_line <$> [r1; r2; r3]))
  ∧ (waf_loop 0 (Fetched <$> take 1 polls)).1.1
    = Continue (Add (RequestTime r3) Second)
  ∧ (r1 ∉ later) ∧ (r2 ∉ later) ∧ (r3 ∉ later)
  ∧ ∀ r, r ∈ later → Add (RequestTime r3) Second ≤ RequestTime r.
Proof.
  intros r1 r2 r3 later polls.
  destruct (watermark_advance 0) as (Hnonempty & _ & Hrun).
  split; [apply Hnonempty; discriminate|].
  destruct (Hrun polls 0%nat r1 r2 r3 sample_polls_ok eq_refl) as [Hw Hlater].
  split; [exact Hw|].
  apply (Hlater 1%nat later); [lia | reflexivity].
Defined.

(** The request at 6 ns is printed by the first cycle and is out of
    reach of the second. *)
Lemma exactly_once_forwarding_witness :
  let r1 := sample_request 5 in
  let r2 := sample_request 6 in
  let r3 := sample_request 7 in
  let later := [sample_request 1000000007; sample_request 1000000009] in
  let polls := [[r1; r2; r3]; later] in
  (waf_loop 0 (Fetched <$> polls)).1.2
  = concat (fmap (M := list) waf_line <$> polls)
  ∧ (∀ r', r' ∈ later → RequestTime r2 < RequestTime r')
  ∧ (r2 ∉ later)
  ∧ (waf_line r2 ∉ waf_line <$> later).
Proof.
  intros r1 r2 r3 later polls.
  destruct (exactly_once_forwarding 0 polls sample_polls_ok)
    as (Hout & _ & Honce).
  split; [exact Hout|].
  apply (Honce 0%nat 1%nat [r1; r2; r3] later r2);
    [lia | reflexivity | reflexivity |].
  apply elem_of_cons. right. apply elem_of_cons. by left.
Defined.

(** [A] is recorded, missing from the fetch, and back in the next
    fetch. *)
Lemma disappearance_witness :
  let s := {| st_time := 0; st_status := {["A" := "RUNNING"]}; st_i := 1 |} in
  let s1 := {| st_time := now (sample_env []); st_status := ∅; st_i := 2 |} in
  let back := [sample_instance "A" "PENDING"] in
  let cycle := logs_cycle ascii_ToLower (split_lines "") s1 (sample_env back) in
  transitions_of "A"
    (logs_cycle ascii_ToLower (split_lines "") s (sample_env [])).2
  = [went_away_line "A"]
  ∧ st_status s1 !! "A" = None
  ∧ ∃ pre a post,
      back = pre ++ a :: post ∧ Name a = "A" ∧ ("A" ∉ Name <$> pre)
      ∧ lines_of fmt_new_instance "A" cycle.2
        = [Printf fmt_new_instance [Str "A"; Str (ascii_ToLower (Phase a))]]
      ∧ is_Some (st_status (state_of cycle.1) !! "A").
Proof.
  intros s s1 back cycle.
  destruct (disappearance ascii_ToLower (split_lines "") s s1 (sample_env [])
              [] "A" "RUNNING" [went_away_line "A"])
    as (Hline & Hgone & Hlater).
  - apply sample_env_range_ok.
  - discriminate.
  - reflexivity.
  - reflexivity.
  - apply not_elem_of_nil.
  - reflexivity.
  - split; [exact Hline|]. split; [exact Hgone|].
    destruct (Hlater [] s1 [] 0%nat) as (_ & _ & Hback);
      [constructor | reflexivity |].
    apply (Hback (sample_env back) back (state_of cycle.1) cycle.2).
    + apply sample_env_range_ok.
    + discriminate.
    + reflexivity.
    + by left.
    + reflexivity.
Defined.

(** A failed [GetInstances], and a failed [GetInstanceLogs]: the list
    holds the same instance twice, the call for the first entry is
    answered and the call for the second one fails. *)
Lemma fetch_errors_are_fatal_witness :
  let down := {| listing := FetchError "503 Service Unavailable";
                 logs_answer := λ _ _ _, Fetched "";
                 now := 9; range_order := sample_order |} in
  let A := sample_instance "A" "RUNNING" in
  let nologs :=
    {| listing := Fetched [A; A];
       logs_answer := λ n _ _,
         match n with
         | O => Fetched "GET /get 200"
         | S _ => FetchError "404 Not Found"
         end;
       now := 9; range_order := sample_order |} in
  let s := {| st_time := 3; st_status := {["A" := "PENDING"]}; st_i := 4 |} in
  logs_loop ascii_ToLower (split_lines "") s [down; sample_env [A]]
  = (Exit s,
     [Printf ("Error querying workload instances: %s" +:+ newline)
        [Str "503 Service Unavailable"];
      Println [Str "Done"]; Println []], 1%nat)
  ∧ logs_loop ascii_ToLower (split_lines "") s [nologs; sample_env [A]]
    = (Exit {| st_time := 3; st_status := {["A" := "RUNNING"]}; st_i := 4 |},
       [Printf fmt_instance_now [Str "A"; Str "running"];
        Printf fmt_log_line [Str "A"; Str "GET /get 200"];
        Printf ("Error querying %s instance logs: %s" +:+ newline)
          [Str "A"; Str "404 Not Found"];
        Println [Str "Done"]; Println []], 1%nat)
  ∧ transitions
      [Printf ("Error getting WAF requests: %s" +:+ newline) [Str "timeout"];
       Println [Str "Done"]; Println []] = [].
Proof.
  intros down A nologs s. split; [|split].
  - destruct (fetch_errors_are_fatal ascii_ToLower (split_lines "")
                "503 Service Unavailable") as (_ & _ & Hlist & _).
    apply (Hlist s down [sample_env [A]]). reflexivity.
  - destruct (fetch_errors_are_fatal ascii_ToLower (split_lines "")
                "404 Not Found") as (_ & _ & _ & Hlogs & _).
    exact (Hlogs s nologs [sample_env [A]] [A] A [] {["A" := "RUNNING"]}
             [Printf fmt_instance_now [Str "A"; Str "running"];
              Printf fmt_log_line [Str "A"; Str "GET /get 200"]]
             eq_refl eq_refl eq_refl).
  - destruct (fetch_errors_are_fatal ascii_ToLower (split_lines "")
                "timeout") as (_ & _ & _ & _ & Hreport).
    apply Hreport. unfold error_formats. apply elem_of_cons. right.
    apply elem_of_cons. by left.
Defined.

(** An empty fetch in the bring-up monitor, on the first cycle of the
    continuous monitor and on a later one. *)
Lemma empty_fetch_cycle_witness :
  let recorded : gmap string string := {["A" := "RUNNING"]} in
  let first := {| st_time := 0; st_status := ∅; st_i := 0 |} in
  let later := {| st_time := 0; st_status := recorded; st_i := 7 |} in
  wait_cycle ascii_ToLower recorded (Fetched []) = (Continue recorded, [])
  ∧ logs_cycle ascii_ToLower (split_lines "") first (sample_env [])
    = (Continue {| st_time := now (sample_env []); st_status := ∅;
                   st_i := 1 |}, [])
  ∧ logs_cycle ascii_ToLower (split_lines "") later (sample_env [])
    = (Continue {| st_time := now (sample_env []); st_status := ∅;
                   st_i := 8 |}, [went_away_line "A"]).
Proof.
  intros recorded first later.
  destruct (empty_fetch_cycle ascii_ToLower (split_lines ""))
    as (Hwait & Hfirst & Hlater).
  split; [apply Hwait|]. split.
  - apply (Hfirst first (sample_env [])); reflexivity.
  - apply (Hlater later (sample_env []));
      [reflexivity | discriminate | apply sample_env_range_ok].
Defined.

(** The continuous monitor does not skip an empty fetch: with [A]
    recorded and [i = 1] it reports [A] as gone and empties its map. *)
Lemma empty_fetch_not_skipped :
  ¬ ∀ (s : LogsState) (env : LogsEnv),
      range_ok env → listing env = Fetched [] →
      let cycle := logs_cycle ascii_ToLower (split_lines "") s env in
      transitions cycle.2 = []
      ∧ st_status (state_of cycle.1) = st_status s.
Proof.
  intros H.
  destruct (H {| st_time := 0; st_status := {["A" := "RUNNING"]}; st_i := 1 |}
              (sample_env []) (sample_env_range_ok []) eq_refl) as [Hout _].
  vm_compute in Hout. discriminate Hout.
Qed.

(** [B] appears next to the recorded [A]. *)
Lemma appearance_witness :
  let A := sample_instance "A" "RUNNING" in
  let B := sample_instance "B" "PENDING" in
  let recorded : gmap string string := {["A" := "RUNNING"]} in
  let s := {| st_time := 0; st_status := recorded; st_i := 1 |} in
  let bringup := wait_cycle ascii_ToLower recorded (Fetched [A; B]) in
  let cycle := logs_cycle ascii_ToLower (split_lines "") s (sample_env [A; B]) in
  (transitions_of "B" bringup.2
   = [Printf fmt_instance_is [Str "B"; Str "pending"]]
   ∧ state_of bringup.1 !! "B" = Some "PENDING")
  ∧ transitions_of "B" cycle.2
    = [Printf fmt_new_instance [Str "B"; Str "pending"]]
  ∧ st_status (state_of cycle.1) !! "B" = Some "PENDING".
Proof.
  intros A B recorded s bringup cycle.
  destruct (appearance ascii_ToLower (split_lines "") [A] [] B)
    as [Hwait Hlogs].
  - apply (bool_decide_unpack _). vm_compute. exact I.
  - apply not_elem_of_nil.
  - split; [apply (Hwait recorded); reflexivity|].
    destruct (Hlogs s (sample_env [A; B]) (state_of cycle.1) cycle.2)
      as (Hline & _ & Hstate);
      [apply sample_env_range_ok | reflexivity | reflexivity | reflexivity |].
    split; [apply Hline; discriminate | exact Hstate].
Defined.

(** On its first cycle the continuous monitor records a new instance
    without printing a [New instance] line. *)
Lemma first_poll_appearance_is_silent :
  ¬ ∀ (s : LogsState) (env : LogsEnv) (a : Instance),
      range_ok env → listing env = Fetched [a] →
      st_status s !! Name a = None →
      transitions_of (Name a)
        (logs_cycle ascii_ToLower (split_lines "") s env).2
      = [Printf fmt_new_instance
           [Str (Name a); Str (ascii_ToLower (Phase a))]].
Proof.
  intros H.
  pose proof (H (logs_start 0) (sample_env [sample_instance "A" "PENDING"])
                (sample_instance "A" "PENDING")
                (sample_env_range_ok _) eq_refl eq_refl) as Hout.
  vm_compute in Hout. discriminate Hout.
Qed.

(** [A] goes from PENDING to RUNNING. *)
Lemma change_event_witness :
  let A := sample_instance "A" "RUNNING" in
  let B := sample_instance "B" "PENDING" in
  let recorded : gmap string string := {["A" := "PENDING"]} in
  let s := {| st_time := 0; st_status := recorded; st_i := 1 |} in
  let bringup := wait_cycle ascii_ToLower recorded (Fetched [A; B]) in
  let cycle := logs_cycle ascii_ToLower (split_lines "") s (sample_env [A; B]) in
  (transitions_of "A" bringup.2
   = [Printf fmt_instance_is [Str "A"; Str "running"]]
   ∧ state_of bringup.1 !! "A" = Some "RUNNING")
  ∧ transitions_of "A" cycle.2
    = [Printf fmt_instance_now [Str "A"; Str "running"]]
  ∧ st_status (state_of cycle.1) !! "A" = Some "RUNNING".
Proof.
  intros A B recorded s bringup cycle.
  destruct (change_event ascii_ToLower (split_lines "") [] [B] A "PENDING")
    as [Hwait Hlogs].
  - apply not_elem_of_nil.
  - apply (bool_decide_unpack _). vm_compute. exact I.
  - discriminate.
  - split; [apply (Hwait recorded); reflexivity|].
    apply (Hlogs s (sample_env [A; B]) (state_of cycle.1) cycle.2);
      [apply sample_env_range_ok | reflexivity | discriminate
      | reflexivity | reflexivity].
Defined.

(** The line printed for a changed phase is the same whatever phase was
    recorded before, so no reader of the line can tell the old phase:
    neither for the bring-up monitor nor for the continuous one. *)
Lemma changed_line_lacks_old_value :
  (¬ ∃ old_of : Line → string,
       ∀ (st : gmap string string) (a : Instance) (old : string) (l : Line),
         st !! Name a = Some old → old ≠ Phase a →
         l ∈ transitions (wait_cycle ascii_ToLower st (Fetched [a])).2 →
         old_of l = old)
  ∧ (¬ ∃ old_of : Line → string,
         ∀ (s : LogsState) (env : LogsEnv) (a : Instance) (old : string)
           (l : Line),
           range_ok env → listing env = Fetched [a] → st_i s ≠ 0 →
           st_status s !! Name a = Some old → old ≠ Phase a →
           l ∈ transitions
                 (logs_cycle ascii_ToLower (split_lines "") s env).2 →
           old_of l = old).
Proof.
  pose (A := sample_instance "A" "RUNNING").
  split; intros [old_of H].
  - pose (l := Printf fmt_instance_is [Str "A"; Str "running"]).
    assert (old_of l = "PENDING") as H1.
    { apply (H {["A" := "PENDING"]} A); [reflexivity | discriminate |].
      vm_compute. by left. }
    assert (old_of l = "STOPPED") as H2.
    { apply (H {["A" := "STOPPED"]} A); [reflexivity | discriminate |].
      vm_compute. by left. }
    rewrite H1 in H2. discriminate H2.
  - pose (l := Printf fmt_instance_now [Str "A"; Str "running"]).
    assert (old_of l = "PENDING") as H1.
    { apply (H {| st_time := 0; st_status := {["A" := "PENDING"]}; st_i := 1 |}
               (sample_env [A]) A);
        [apply sample_env_range_ok | reflexivity | discriminate | reflexivity
        | discriminate |].
      vm_compute. by left. }
    assert (old_of l = "STOPPED") as H2.
    { apply (H {| st_time := 0; st_status := {["A" := "STOPPED"]}; st_i := 1 |}
               (sample_env [A]) A);
        [apply sample_env_range_ok | reflexivity | discriminate | reflexivity
        | discriminate |].
      vm_compute. by left. }
    rewrite H1 in H2. discriminate H2.
Qed.

(** A fetch with two instances of one name in two phases prints again
    when it is repeated: the map holds the last phase, the first instance
    differs from it. *)
Lemma repeated_duplicates_print_again :
  ¬ ∀ (st : gmap string string) (instances : list Instance),
      let first := wait_cycle ascii_ToLower st (Fetched instances) in
      let second :=
        wait_cycle ascii_ToLower (state_of first.1) (Fetched instances) in
      transitions second.2 = [].
Proof.
  intros H.
  pose proof (H ∅ [sample_instance "A" "PENDING";
                   sample_instance "A" "RUNNING"]) as Hout.
  vm_compute in Hout. discriminate Hout.
Qed.

(** * Properties of the API client *)

Section ClientProperties.

Set Default Proof Using "Type".

Variable ToLower : string → string.
Variable ScanLines : string → list string.
Variable url_error : string → option error.
Variable QueryEscape : string → string.
Variable FormatRFC3339 : Time → string.
Variable Unmarshal_token : string → fetched string.
Variable Unmarshal_stacks : string → fetched (list Stack).
Variable Unmarshal_zones : string → fetched (list Domain).
Variable Unmarshal_workload : string → fetched NewWorkload.
Variable Unmarshal_instances : string → fetched (list Instance).
Variable Unmarshal_site : string → fetched Site.
Variable Unmarshal_domains : string → fetched (list string).
Variable Unmarshal_requests : string → fetched (list WAFRequest).

Lemma Do_as_sent c rt req :
  Do c rt req
  = (res ← rt (as_sent c req);
     if bool_decide (300 ≤ StatusCode res) then
       body ← read_body res; _ ← closed res;
       FetchError (Status res +:+ ": " +:+ body)
     else Fetched res).
Proof. reflexivity. Qed.

Lemma Do_rejects c rt req :
  (∀ r res, rt r = Fetched res → 300 ≤ StatusCode res) →
  ∃ err, Do c rt req = FetchError err.
Proof.
  intros Hbad. rewrite Do_as_sent.
  destruct (rt (as_sent c req)) as [res|err] eqn:E; simpl; [|by eexists].
  rewrite bool_decide_eq_true_2 by by eapply Hbad.
  destruct (read_body res) as [body|err]; simpl; [|by eexists].
  unfold closed. destruct (close_body res); simpl; by eexists.
Qed.

Lemma bind_rejects {A B} (m : fetched A) (k : A → fetched B) :
  (∃ err, m = FetchError err) → ∃ err, (m ≫= k) = FetchError err.
Proof. intros [err ->]. by exists err. Qed.

Lemma request_rejects {B} c rt method url body (k : Response → fetched B) :
  (∀ r res, rt r = Fetched res → 300 ≤ StatusCode res) →
  ∃ err, (req ← NewRequest url_error method url body;
          res ← Do c rt req; k res) = FetchError err.
Proof.
  intros Hbad. unfold NewRequest.
  destruct (url_error url) as [err|]; simpl; [by eexists|].
  by apply bind_rejects, Do_rejects.
Qed.

(** X9.  No function of the client succeeds on an HTTP status of 300 or
    more: when the network answers every request with such a status,
    each of the thirteen calls returns an error, whatever the decoders
    would make of the body. *)
Theorem no_success_on_http_error (c : Client)
    (roundTrip : Request → fetched Response) (stack : Stack)
    (workload : Workload) (site : Site) :
  (∀ req res, roundTrip req = Fetched res → 300 ≤ StatusCode res) →
  (∀ req, ∃ err, Do c roundTrip req = FetchError err)
  ∧ (∀ id secret, ∃ err,
       NewClient url_error Unmarshal_token roundTrip id secret
       = FetchError err)
  ∧ (∀ slug, ∃ err,
       FindStackBySlug url_error QueryEscape Unmarshal_stacks c roundTrip slug
       = FetchError err)
  ∧ (∀ name, ∃ err,
       FindDomainByName url_error QueryEscape Unmarshal_zones c roundTrip
         stack name = FetchError err)
  ∧ (∀ domain record target, ∃ err,
       SetDNSCNAME url_error c roundTrip stack domain record target
       = Some err)
  ∧ (∃ err, CreateWorkload url_error Unmarshal_workload c roundTrip stack
            = Returned (FetchError err))
  ∧ (∃ err, GetInstances url_error Unmarshal_instances c roundTrip stack
              workload = FetchError err)
  ∧ (∀ instance since, ∃ err,
       GetInstanceLogs url_error FormatRFC3339 c roundTrip stack workload
         instance since = FetchError err)
  ∧ (∀ originIP domainName, ∃ err,
       CreateSiteDelivery url_error Unmarshal_site c roundTrip stack
         originIP domainName = FetchError err)
  ∧ (∃ err, FindSiteDeliveryDomain url_error Unmarshal_domains c roundTrip
              stack site = FetchError err)
  ∧ (∃ err, RequestFreeSSLCert url_error c roundTrip stack site = Some err)
  ∧ (∃ err, CreateDemoWAFRules url_error c roundTrip stack site = Some err)
  ∧ (∀ since, ∃ err,
       GetWAFRequests url_error FormatRFC3339 Unmarshal_requests c roundTrip
         stack site since = FetchError err).
Proof.
  intros Hbad.
  assert (∀ B method url body (k : Response → fetched B) c', ∃ err,
            (req ← NewRequest url_error method url body;
             res ← Do c' roundTrip req; k res) = FetchError err) as Hreq
    by (intros; by apply request_rejects).
  assert (∀ method url body c', ∃ err,
            error_of (req ← NewRequest url_error method url body;
                      Do c' roundTrip req) = Some err) as Herr.
  { intros method url body c'.
    destruct (Hreq _ method url body (λ res, Fetched res) c') as [err He].
    exists err. unfold NewRequest in *.
    destruct (url_error url); simpl in *; [congruence|].
    destruct (Do c' roundTrip _); simpl in *; congruence. }
  repeat split.
  - intros req. by apply Do_rejects.
  - intros id secret. apply Hreq.
  - intros slug. apply Hreq.
  - intros name. apply Hreq.
  - intros domain record target. apply Herr.
  - unfold CreateWorkload.
    edestruct (Hreq NewWorkload) as [err ->]. by exists err.
  - apply Hreq.
  - intros instance since. apply Hreq.
  - intros originIP domainName. apply Hreq.
  - apply Hreq.
  - apply Herr.
  - unfold CreateDemoWAFRules.
    edestruct (Hreq Response) as [err ->]. by exists err.
  - intros since. apply Hreq.
Qed.





Lemma substring_all s : String.substring 0 (String.length s) s = s.
Proof. induction s as [|ch s IH]; simpl; [done | by rewrite IH]. Qed.

Lemma substring_skip p s m :
  String.substring (String.length p) m (p +:+ s) = String.substring 0 m s.
Proof. induction p as [|ch p IH]; simpl; [done | apply IH]. Qed.

Lemma length_append_string p s :
  String.length (p +:+ s) = (String.length p + String.length s)%nat.
Proof. induction p as [|ch p IH]; simpl; [done | by rewrite IH]. Qed.

Lemma substring_split s n :
  (n ≤ String.length s)%nat →
  s = String.substring 0 n s
      +:+ String.substring n (String.length s - n) s.
Proof.
  revert n. induction s as [|ch s IH]; intros n Hn; simpl in *.
  - by destruct n.
  - destruct n as [|n]; simpl.
    + by rewrite substring_all.
    + change (String ch s
              = String ch (String.substring 0 n s
                           +:+ String.substring n (String.length s - n) s)).
      f_equal. apply IH. lia.
Qed.

Lemma HasSuffix_spec s suffix :
  HasSuffix s suffix = true ↔ ends_with s suffix.
Proof.
  unfold HasSuffix, ends_with. rewrite andb_true_iff, bool_decide_eq_true.
  rewrite Nat.leb_le. split.
  - intros [Hlen Hsub].
    exists (String.substring 0 (String.length s - String.length suffix) s).
    pose proof (substring_split s (String.length s - String.length suffix))
      as Hs.
    replace (String.length s - (String.length s - String.length suffix))%nat
      with (String.length suffix) in Hs by lia.
    rewrite Hsub in Hs. apply Hs. lia.
  - intros [p ->]. rewrite length_append_string. split; [lia|].
    replace (String.length p + String.length suffix - String.length suffix)%nat
      with (String.length p) by lia.
    by rewrite substring_skip, substring_all.
Qed.

Lemma first_cdn_domain_spec results :
  (first_cdn_domain results = ""
   ∧ ∀ x, x ∈ results → ¬ ends_with x ".stackpathcdn.com")
  ∨ ∃ pre post,
      results = pre ++ first_cdn_domain results :: post
      ∧ ends_with (first_cdn_domain results) ".stackpathcdn.com"
      ∧ ∀ x, x ∈ pre → ¬ ends_with x ".stackpathcdn.com".
Proof.
  induction results as [|d results IH]; simpl.
  - left. split; [done|]. by intros x ?%elem_of_nil.
  - destruct (HasSuffix d ".stackpathcdn.com") eqn:E.
    + right. exists [], results. split; [done|].
      split; [by apply HasSuffix_spec|]. by intros x ?%elem_of_nil.
    + assert (¬ ends_with d ".stackpathcdn.com") as Hd.
      { intros H%HasSuffix_spec. congruence. }
      destruct IH as [[-> Hnone]|(pre & post & Heq & Hends & Hpre)].
      * left. split; [done|].
        intros x [->|?]%elem_of_cons; [done | by apply Hnone].
      * right. exists (d :: pre), post. split; [by rewrite Heq at 1|].
        split; [done|].
        intros x [->|?]%elem_of_cons; [done | by apply Hpre].
Qed.

(** What a call that ran through [NewRequest], [Do] and the reading of
    the body has seen. *)
Lemma pipeline_inv {B} c rt method url body0 (k : string → fetched B) x :
  (req ← NewRequest url_error method url body0;
   res ← Do c rt req; body ← read_all res; k body) = Fetched x
  ↔ ∃ req body,
      NewRequest url_error method url body0 = Fetched req
      ∧ answered c rt req body ∧ k body = Fetched x.
Proof.
  unfold NewRequest, answered.
  destruct (url_error url) as [err|]; simpl.
  { split; [done|]. by intros (? & ? & ? & _). }
  rewrite Do_as_sent. split.
  - destruct (rt (as_sent c _)) as [res|err] eqn:E; simpl; [|done].
    destruct (bool_decide (300 ≤ StatusCode res)) eqn:Es; simpl.
    { destruct (read_body res); simpl; [|done].
      unfold closed. by destruct (close_body res). }
    apply bool_decide_eq_false in Es. unfold read_all.
    destruct (read_body res) as [body|] eqn:Er; simpl; [|done].
    unfold closed. destruct (close_body res) eqn:Ec; simpl; [done|].
    intros Hk. eexists _, body. split; [done|]. split; [|done].
    exists res. repeat split; try done. lia.
  - intros (req & body & [= <-] & (res & -> & Hs & Hr & Hc) & Hk). simpl.
    rewrite bool_decide_eq_false_2 by lia. simpl. unfold read_all, closed.
    by rewrite Hr, Hc.
Qed.


(** X12.  [FindStackBySlug] and [FindDomainByName] report "not found"
    (a [nil] result without error) only when the request was answered below
    status 300 and the decoded list is empty; they return a stack or a zone
    exactly when the decoded list is not empty, and then its first element,
    whose slug or name they do not compare with the one asked for. *)
Theorem lookup_results (c : Client) (roundTrip : Request → fetched Response)
    (stack : Stack) (slug name : string) :
  let stack_url :=
    baseURL +:+ "/stack/v1/stacks?page_request.filter="
    +:+ QueryEscape ("slug=" +:+ dquote +:+ slug +:+ dquote) in
  let zone_url :=
    baseURL +:+ "/dns/v1/stacks/" +:+ stack_Slug stack
    +:+ "/zones?page_request.filter="
    +:+ QueryEscape ("domain=" +:+ dquote +:+ name +:+ dquote) in
  (∀ found,
     FindStackBySlug url_error QueryEscape Unmarshal_stacks c roundTrip slug
     = Fetched found
     ↔ ∃ req body results,
         NewRequest url_error "GET" stack_url None = Fetched req
         ∧ answered c roundTrip req body
         ∧ Unmarshal_stacks body = Fetched results
         ∧ found = head results)
  ∧ (∀ found,
       FindDomainByName url_error QueryEscape Unmarshal_zones c roundTrip
         stack name = Fetched found
       ↔ ∃ req body zones,
           NewRequest url_error "GET" zone_url None = Fetched req
           ∧ answered c roundTrip req body
           ∧ Unmarshal_zones body = Fetched zones
           ∧ found = head zones).
Proof.
  intros stack_url zone_url. split; intros found.
  - unfold FindStackBySlug. fold stack_url. rewrite pipeline_inv.
    split.
    + intros (req & body & Hreq & Hans & Hk).
      destruct (Unmarshal_stacks body) as [results|] eqn:Eu; [|done].
      exists req, body, results. repeat split; try done.
      simpl in Hk. destruct results; simpl in *; congruence.
    + intros (req & body & results & Hreq & Hans & Hu & ->).
      exists req, body. repeat split; try done. rewrite Hu. simpl.
      by destruct results.
  - unfold FindDomainByName. fold zone_url. rewrite pipeline_inv.
    split.
    + intros (req & body & Hreq & Hans & Hk).
      destruct (Unmarshal_zones body) as [zones|] eqn:Eu; [|done].
      exists req, body, zones. repeat split; try done.
      simpl in Hk. destruct zones; simpl in *; congruence.
    + intros (req & body & zones & Hreq & Hans & Hu & ->).
      exists req, body. repeat split; try done. rewrite Hu. simpl.
      by destruct zones.
Qed.

Lemma Split_head s sep :
  ∃ part parts,
    Split s sep = part :: parts
    ∧ (sep ∉ String.list_ascii_of_string part)
    ∧ (s = part ∨ ∃ rest, s = part +:+ String sep rest).
Proof.
  induction s as [|ch s (part & parts & Hs & Hno & Hshape)]; simpl.
  - exists "", []. split; [done|]. split; [apply not_elem_of_nil | by left].
  - case_bool_decide as Hc.
    + subst ch. exists "", (Split s sep). split; [done|].
      split; [apply not_elem_of_nil|]. right. by exists s.
    + rewrite Hs. exists (String ch part), parts. split; [done|]. split.
      * simpl. apply not_elem_of_cons. split; [congruence | done].
      * destruct Hshape as [->|[rest ->]]; [by left|]. right. by exists rest.
Qed.

(** X13.  [CreateWorkload] never panics on the index into the result of
    [strings.Split]: the split of any annotation, the empty one included,
    has a first part.  The anycast IP of the workload it returns is the
    annotation up to its first slash, the whole annotation when it has
    none; identifier, slug and name are those decoded. *)
Theorem anycast_ip_of_workload (c : Client)
    (roundTrip : Request → fetched Response) (stack : Stack) :
  CreateWorkload url_error Unmarshal_workload c roundTrip stack ≠ Panicked
  ∧ ∀ w,
      CreateWorkload url_error Unmarshal_workload c roundTrip stack
      = Returned (Fetched w) →
      ∃ req body decoded,
        NewRequest url_error "POST"
          (baseURL +:+ "/workload/v1/stacks/" +:+ stack_Slug stack
           +:+ "/workloads") (Some workload_body) = Fetched req
        ∧ answered c roundTrip req body
        ∧ Unmarshal_workload body = Fetched decoded
        ∧ workload_ID w = nw_ID decoded
        ∧ workload_Slug w = nw_Slug decoded
        ∧ workload_Name w = nw_Name decoded
        ∧ ("/"%char ∉ String.list_ascii_of_string (workload_AnycastIP w))
        ∧ (nw_Subnets decoded = workload_AnycastIP w
           ∨ ∃ rest, nw_Subnets decoded
                     = workload_AnycastIP w +:+ String "/" rest).
Proof.
  unfold CreateWorkload.
  destruct (NewRequest url_error "POST" _ _ ≫= _) as [decoded|err] eqn:E.
  - destruct (Split_head (nw_Subnets decoded) "/")
      as (part & parts & -> & Hno & Hshape). simpl.
    split; [done|]. intros w [= <-]. simpl.
    pose proof (proj1 (pipeline_inv c roundTrip "POST" _ _
                         Unmarshal_workload decoded) E)
      as (req & body & Hreq & Hans & Hu).
    exists req, body, decoded. by repeat split.
  - split; [done|]. by intros w.
Qed.

(** X14.  What the operator sees when the gateway answers a poll with a
    status of 300 or more: each monitor ends the process in that cycle,
    and the line it prints holds the status line of the response and its
    body, after the name of the failed fetch; [Done] and an empty line
    follow. *)
Theorem http_error_report (c : Client)
    (roundTrip : Request → fetched Response) (stack : Stack)
    (workload : Workload) (site : Site) (res : Response) (body : string) :
  (∀ url, url_error url = None) →
  (∀ req, roundTrip req = Fetched res) →
  300 ≤ StatusCode res →
  read_body res = Fetched body → close_body res = None →
  let report := Str (Status res +:+ ": " +:+ body) in
  let printed (format : string) (args : list Arg) : list Line :=
    [Printf (format +:+ newline) args; Println [Str "Done"]; Println []] in
  (∀ st,
     wait_cycle ToLower st
       (GetInstances url_error Unmarshal_instances c roundTrip stack workload)
     = (Exit st, printed "Error querying instance status: %s" [report]))
  ∧ (∀ w,
       waf_cycle w
         (GetWAFRequests url_error FormatRFC3339 Unmarshal_requests c
            roundTrip stack site w)
       = (Exit w, printed "Error getting WAF requests: %s" [report]))
  ∧ (∀ s env,
       listing env
       = GetInstances url_error Unmarshal_instances c roundTrip stack
           workload →
       logs_cycle ToLower ScanLines s env
       = (Exit s, printed "Error querying workload instances: %s" [report]))
  ∧ (∀ s env a,
       listing env = Fetched [a] →
       logs_answer env 0%nat a (st_time s)
       = GetInstanceLogs url_error FormatRFC3339 c roundTrip stack workload
           a (st_time s) →
       (logs_cycle ToLower ScanLines s env).2
       = (logs_status ToLower (st_i s) a (st_status s)).2
         ++ printed "Error querying %s instance logs: %s"
              [Str (Name a); report]).
Proof using ToLower ScanLines.
  intros Hurl Hnet Hstatus Hread Hclose report printed.
  assert (∀ B method url body0 (k : Response → fetched B),
            (req ← NewRequest url_error method url body0;
             res ← Do c roundTrip req; k res)
            = FetchError (Status res +:+ ": " +:+ body)) as Hfail.
  { intros B method url body0 k. unfold NewRequest. rewrite Hurl. simpl.
    rewrite Do_as_sent, Hnet. simpl.
    rewrite bool_decide_eq_true_2 by done. rewrite Hread. simpl.
    unfold closed. by rewrite Hclose. }
  split; [|split; [|split]].
  - intros st. unfold GetInstances. by rewrite Hfail.
  - intros w. unfold GetWAFRequests. by rewrite Hfail.
  - intros s env Hl. unfold logs_cycle. rewrite Hl.
    unfold GetInstances. by rewrite Hfail.
  - intros s env a Hl Ha. unfold logs_cycle. rewrite Hl. cbn [logs_range].
    destruct (logs_status ToLower (st_i s) a (st_status s)) as [s1 o1].
    rewrite Ha. unfold GetInstanceLogs. by rewrite Hfail.
Qed.

(** X21.  [main] does not check the delivery domain it is given.  When
    the site lists no delivery domain under [.stackpathcdn.com],
    [FindSiteDeliveryDomain] returns the empty string without an error,
    and a run of [main] that reaches the end has pointed the DNS record
    of the project to the empty name. *)
Theorem cname_target_may_be_empty (cfg : Config) (w : World) (r : Run)
    (c : Client) (roundTrip : Request → fetched Response) (stack : Stack)
    (site : Site) (req : Request) (body : string) (results : list string) :
  main ToLower cfg w start = Returns tt r →
  answer_FindSiteDeliveryDomain w
  = FindSiteDeliveryDomain url_error Unmarshal_domains c roundTrip stack
      site →
  NewRequest url_error "GET"
    (baseURL +:+ "/delivery/v1/stacks/" +:+ stack_Slug stack
     +:+ "/sites/" +:+ site_ID site +:+ "/delivery_domains") None
  = Fetched req →
  answered c roundTrip req body →
  Unmarshal_domains body = Fetched results →
  (∀ x, x ∈ results → ¬ ends_with x ".stackpathcdn.com") →
  deliveryDomain (globals r) = ""
  ∧ ∃ s d, CallSetDNSCNAME s d (ProjectSubDomain cfg) "" ∈ called r.
Proof.
  intros Hrun Hw Hreq Hans Hdec Hnone.
  assert (FindSiteDeliveryDomain url_error Unmarshal_domains c roundTrip
            stack site = Fetched "") as Hfound.
  { unfold FindSiteDeliveryDomain. apply pipeline_inv.
    exists req, body. split; [done|]. split; [done|].
    rewrite Hdec. simpl. f_equal.
    destruct (first_cdn_domain_spec results)
      as [[-> _]|(pre & post & Hres & Hend & _)]; [done|].
    destruct (Hnone (first_cdn_domain results)); [|done].
    rewrite Hres at 2. apply elem_of_app. right. apply elem_of_cons.
    by left. }
  destruct (main_returns_cname ToLower cfg w r Hrun)
    as (s & d & dd & Hdd & Hglobal & Hcalled).
  rewrite Hw, Hfound in Hdd. injection Hdd as <-.
  split; [done|]. by exists s, d.
Qed.

Lemma Do_ok c rt req res :
  Do c rt req = Fetched res
  ↔ rt (as_sent c req) = Fetched res ∧ StatusCode res < 300.
Proof.
  rewrite Do_as_sent. destruct (rt (as_sent c req)) as [res'|err]; simpl.
  - destruct (decide (300 ≤ StatusCode res')) as [Hs|Hs].
    + rewrite bool_decide_eq_true_2 by done.
      split.
      * destruct (read_body res'); simpl; [|done].
        unfold closed. by destruct (close_body res').
      * intros [[= ->] ?]. lia.
    + rewrite bool_decide_eq_false_2 by done. split.
      * intros [= ->]. split; [done|lia].
      * by intros [[= ->] _].
  - split; [done|]. by intros [? _].
Qed.

(** X22.  [CreateDemoWAFRules] creates its two rules one after the
    other and not as a whole.  It succeeds exactly when the gateway
    answers the request of the block rule and then that of the allow rule
    below status 300; when the block rule is refused the allow rule is
    not asked for, so the answer the network would give to it has no
    part in the result. *)
Theorem waf_rules_one_after_the_other (c : Client)
    (roundTrip : Request → fetched Response) (stack : Stack) (site : Site) :
  let url :=
    baseURL +:+ "/waf/v1/stacks/" +:+ stack_Slug stack
    +:+ "/sites/" +:+ site_ID site +:+ "/rules" in
  (CreateDemoWAFRules url_error c roundTrip stack site = None
   ↔ ∃ block allow res1 res2,
       NewRequest url_error "POST" url (Some block_rule_body) = Fetched block
       ∧ roundTrip (as_sent c block) = Fetched res1
       ∧ StatusCode res1 < 300
       ∧ NewRequest url_error "POST" url (Some allow_rule_body)
         = Fetched allow
       ∧ roundTrip (as_sent c allow) = Fetched res2
       ∧ StatusCode res2 < 300)
  ∧ (∀ (roundTrip' : Request → fetched Response) (block : Request),
       NewRequest url_error "POST" url (Some block_rule_body)
       = Fetched block →
       roundTrip' (as_sent c block) = roundTrip (as_sent c block) →
       (∀ res, roundTrip (as_sent c block) = Fetched res →
               300 ≤ StatusCode res) →
       CreateDemoWAFRules url_error c roundTrip' stack site
       = CreateDemoWAFRules url_error c roundTrip stack site
       ∧ is_Some (CreateDemoWAFRules url_error c roundTrip stack site)).
Proof.
  intros url. unfold CreateDemoWAFRules. fold url. split.
  - split.
    + destruct (NewRequest url_error "POST" url (Some block_rule_body))
        as [block|] eqn:Eb; simpl; [|done].
      destruct (Do c roundTrip block) as [res1|] eqn:E1; simpl; [|done].
      destruct (NewRequest url_error "POST" url (Some allow_rule_body))
        as [allow|] eqn:Ea; simpl; [|done].
      destruct (Do c roundTrip allow) as [res2|] eqn:E2; simpl; [|done].
      intros _. apply Do_ok in E1 as [? ?]. apply Do_ok in E2 as [? ?].
      by exists block, allow, res1, res2.
    + intros (block & allow & res1 & res2 & -> & H1 & Hs1 & -> & H2 & Hs2).
      simpl. rewrite (proj2 (Do_ok c roundTrip block res1)) by done. simpl.
      by rewrite (proj2 (Do_ok c roundTrip allow res2)) by done.
  - intros roundTrip' block -> Hsame Hrefused. simpl.
    rewrite !Do_as_sent, Hsame.
    destruct (roundTrip (as_sent c block)) as [res|err]; simpl; [|done].
    rewrite bool_decide_eq_true_2 by by apply Hrefused.
    destruct (read_body res); simpl; [|done].
    unfold closed. by destruct (close_body res).
Qed.

End ClientProperties.

(** * Examples of the further properties *)

(** Two polls in ascending order, and a fetch whose only request is two
    seconds older than the watermark. *)
Lemma watermark_never_moves_back_witness :
  let polls := [[sample_request 5; sample_request 6; sample_request 7];
                [sample_request 1000000007; sample_request 1000000009]] in
  polls_ok 0 polls
  ∧ watermark_after 0 (take 1 polls) ≤ watermark_after 0 (take 2 polls)
  ∧ RequestTime (sample_request 5) + Second < 3 * Second
  ∧ next_watermark (3 * Second) ([] ++ [sample_request 5]) < 3 * Second.
Proof.
  intros polls.
  destruct (watermark_never_moves_back 0) as [Hmono _].
  destruct (watermark_never_moves_back (3 * Second)) as [_ Hback].
  split; [exact sample_polls_ok|].
  split; [apply (Hmono polls 1%nat 2%nat sample_polls_ok); lia|].
  assert (RequestTime (sample_request 5) + Second < 3 * Second) as Hold
    by reflexivity.
  split; [exact Hold|]. exact (Hback [] (sample_request 5) Hold).
Defined.

(** A cycle that starts with [Z] recorded and fetches [A] and [B]. *)
Lemma reconciled_map_is_the_fetch_witness :
  let s := {| st_time := 0; st_status := {["Z" := "RUNNING"]}; st_i := 1 |} in
  let instances := [sample_instance "A" "PENDING";
                    sample_instance "B" "RUNNING"] in
  let cycle :=
    logs_cycle ascii_ToLower (split_lines "") s (sample_env instances) in
  cycle = (Continue (state_of cycle.1), cycle.2)
  ∧ st_status (state_of cycle.1) !! "Z" = last_phase instances "Z"
  ∧ (is_Some (st_status (state_of cycle.1) !! "A")
     ↔ "A" ∈ Name <$> instances).
Proof.
  intros s instances cycle.
  assert (cycle = (Continue (state_of cycle.1), cycle.2)) as Hc
    by reflexivity.
  split; [exact Hc|].
  destruct (reconciled_map_is_the_fetch ascii_ToLower (split_lines "") s
              (state_of cycle.1) (sample_env instances) instances cycle.2
              (sample_env_range_ok instances) eq_refl
              (or_introl (Z.neq_sym _ _ (Z.lt_neq 0 1 eq_refl))) Hc)
    as (Hall & Hkeys & _).
  split; [apply Hall | apply Hkeys].
Defined.


(** Two completed cycles. *)
Lemma first_run_branch_once_witness :
  let envs := [sample_env [sample_instance "A" "RUNNING"];
               sample_env [sample_instance "A" "RUNNING"]] in
  let run := displayInstanceLogs ascii_ToLower (split_lines "") 0 envs in
  run = (Continue (state_of run.1.1), run.1.2, run.2)
  ∧ st_i (state_of run.1.1) = wrap64 2
  ∧ st_i (state_of run.1.1) ≠ 0.
Proof.
  intros envs run.
  assert (run = (Continue (state_of run.1.1), run.1.2, run.2)) as Hrun
    by reflexivity.
  split; [exact Hrun|].
  apply (first_run_branch_once ascii_ToLower (split_lines "") 0 envs
           (state_of run.1.1) run.1.2 run.2 Hrun);
    [discriminate | reflexivity].
Defined.

(** A gateway that answers every request with status 503. *)
Lemma no_success_on_http_error_witness :
  let roundTrip := respond 503 "503 Service Unavailable" "down" in
  (∀ req res, roundTrip req = Fetched res → 300 ≤ StatusCode res)
  ∧ (∃ err, GetInstances no_url_error (λ _, Fetched [])
              sample_client roundTrip sample_stack sample_workload
            = FetchError err)
  ∧ (∃ err, CreateDemoWAFRules no_url_error sample_client roundTrip
              sample_stack sample_site = Some err).
Proof.
  intros roundTrip.
  assert (∀ req res, roundTrip req = Fetched res → 300 ≤ StatusCode res)
    as Hdown by (intros req res [= <-]; discriminate).
  split; [exact Hdown|].
  destruct (no_success_on_http_error no_url_error id sample_time_format
              (λ _, Fetched "token") (λ _, Fetched [sample_stack])
              (λ _, Fetched [sample_zone])
              (λ _, Fetched {| nw_ID := "w1"; nw_Slug := "origin";
                               nw_Name := "My compute origin";
                               nw_Subnets := "185.85.196.1/32" |})
              (λ _, Fetched []) (λ _, Fetched sample_site)
              (λ _, Fetched ["x1.stackpathcdn.com"]) (λ _, Fetched [])
              sample_client roundTrip sample_stack sample_workload
              sample_site Hdown)
    as (_ & _ & _ & _ & _ & _ & Hinstances & _ & _ & _ & _ & Hrules & _).
  split; [exact Hinstances | exact Hrules].
Defined.



(** A workload whose annotation is an address with its prefix length. *)
Lemma anycast_ip_of_workload_witness :
  let decode : string → fetched NewWorkload :=
    λ _, Fetched {| nw_ID := "w1"; nw_Slug := "origin";
                    nw_Name := "My compute origin";
                    nw_Subnets := "185.85.196.1/32" |} in
  let roundTrip := respond 200 "200 OK" "{}" in
  CreateWorkload no_url_error decode sample_client roundTrip sample_stack
  = Returned (Fetched sample_workload)
  ∧ ("/"%char
     ∉ String.list_ascii_of_string (workload_AnycastIP sample_workload)).
Proof.
  intros decode roundTrip.
  assert (CreateWorkload no_url_error decode sample_client roundTrip
            sample_stack = Returned (Fetched sample_workload))
    as Hmade by reflexivity.
  split; [exact Hmade|].
  destruct (anycast_ip_of_workload no_url_error decode sample_client
              roundTrip sample_stack) as [_ Hip].
  destruct (Hip sample_workload Hmade)
    as (req & body & decoded & _ & _ & _ & _ & _ & _ & Hslash & _).
  exact Hslash.
Defined.

(** The bring-up monitor and the WAF monitor under a gateway that is
    down. *)
Lemma http_error_report_witness :
  let roundTrip := respond 503 "503 Service Unavailable" "down" in
  let report := Str "503 Service Unavailable: down" in
  wait_cycle ascii_ToLower ∅
    (GetInstances no_url_error (λ _, Fetched []) sample_client roundTrip
       sample_stack sample_workload)
  = (Exit ∅, donef "Error querying instance status: %s" [report])
  ∧ waf_cycle 0
      (GetWAFRequests no_url_error sample_time_format (λ _, Fetched [])
         sample_client roundTrip sample_stack sample_site 0)
    = (Exit 0, donef "Error getting WAF requests: %s" [report]).
Proof.
  intros roundTrip report.
  assert (300 ≤ StatusCode
                  (sample_response 503 "503 Service Unavailable" "down"))
    as Hstatus by discriminate.
  destruct (http_error_report ascii_ToLower (split_lines "") no_url_error
              sample_time_format (λ _, Fetched []) (λ _, Fetched [])
              sample_client roundTrip sample_stack sample_workload
              sample_site
              (sample_response 503 "503 Service Unavailable" "down") "down"
              (λ _, eq_refl) (λ _, eq_refl) Hstatus eq_refl eq_refl)
    as (Hwait & Hwaf & _).
  split; [apply Hwait | apply Hwaf].
Defined.

(** The block rule is refused by a network that would accept the allow
    rule. *)
Lemma waf_rules_one_after_the_other_witness :
  let url :=
    baseURL +:+ "/waf/v1/stacks/" +:+ stack_Slug sample_stack
    +:+ "/sites/" +:+ site_ID sample_site +:+ "/rules" in
  let block :=
    {| req_method := "POST"; req_url := url; req_header := ∅;
       req_body := Some block_rule_body |} in
  NewRequest no_url_error "POST" url (Some block_rule_body) = Fetched block
  ∧ (∀ res, respond 403 "403 Forbidden" "no" (as_sent sample_client block)
            = Fetched res → 300 ≤ StatusCode res)
  ∧ CreateDemoWAFRules no_url_error sample_client respond_but_block
      sample_stack sample_site
    = CreateDemoWAFRules no_url_error sample_client
        (respond 403 "403 Forbidden" "no") sample_stack sample_site
  ∧ is_Some (CreateDemoWAFRules no_url_error sample_client
               (respond 403 "403 Forbidden" "no") sample_stack sample_site).
Proof.
  intros url block.
  assert (∀ res, respond 403 "403 Forbidden" "no"
                   (as_sent sample_client block) = Fetched res →
                 300 ≤ StatusCode res)
    as Hrefused by (intros res [= <-]; discriminate).
  split; [reflexivity|]. split; [exact Hrefused|].
  destruct (waf_rules_one_after_the_other no_url_error sample_client
              (respond 403 "403 Forbidden" "no") sample_stack sample_site)
    as [_ Hfirst].
  exact (Hfirst respond_but_block block eq_refl eq_refl Hrefused).
Defined.
(** The run of [main] in [sample_world] creates the workload. *)
Lemma nothing_created_unless_requirements_met_witness :
  let run := run_of (main ascii_ToLower sample_config sample_world start) in
  (∃ c, c ∈ called run ∧ creates c = true)
  ∧ (∃ cl, answer_NewClient sample_world = Fetched cl)
  ∧ (∃ s, answer_FindStackBySlug sample_world = Fetched (Some s))
  ∧ (∃ d, answer_FindDomainByName sample_world = Fetched (Some d)).
Proof.
  intros run.
  assert (∃ c, c ∈ called run ∧ creates c = true) as Hcreated.
  { exists (CallCreateWorkload sample_stack). split; [|reflexivity].
    apply (list_elem_of_lookup_2 _ 3%nat). vm_compute. reflexivity. }
  split; [exact Hcreated|].
  exact (nothing_created_unless_requirements_met ascii_ToLower sample_config
           sample_world Hcreated).
Defined.

(** The DNS record of the run in [sample_world] follows the third
    poll. *)
Lemma later_steps_wait_for_bring_up_witness :
  let run := run_of (main ascii_ToLower sample_config sample_world start) in
  let c := CallSetDNSCNAME sample_stack sample_zone "www"
             "x1.stackpathcdn.com" in
  c ∈ called run
  ∧ ∃ K l, answers_GetInstances sample_world !! K = Some (Fetched l)
      ∧ all_running l
      ∧ ∀ j, (j < K)%nat →
          ∃ l', answers_GetInstances sample_world !! j = Some (Fetched l')
                ∧ ¬ all_running l'.
Proof.
  intros run c.
  assert (c ∈ called run) as Hcalled
    by (apply (list_elem_of_lookup_2 _ 9%nat); vm_compute; reflexivity).
  split; [exact Hcalled|].
  apply (later_steps_wait_for_bring_up ascii_ToLower sample_config
           sample_world c Hcalled).
  simpl. lia.
Defined.

(** The run of [main] in [sample_world] reaches the end. *)
Lemma successful_run_witness :
  let run := run_of (main ascii_ToLower sample_config sample_world start) in
  main ascii_ToLower sample_config sample_world start = Returns tt run
  ∧ ∃ cl s d wl st dd polls,
      answer_NewClient sample_world = Fetched cl
      ∧ answer_FindStackBySlug sample_world = Fetched (Some s)
      ∧ answer_FindDomainByName sample_world = Fetched (Some d)
      ∧ answer_CreateWorkload sample_world = Fetched wl
      ∧ answer_CreateSiteDelivery sample_world = Fetched st
      ∧ answer_FindSiteDeliveryDomain sample_world = Fetched dd
      ∧ globals run
        = {| client := Some cl; stack := Some s; domain := Some d;
             workload := Some wl; site := Some st; deliveryDomain := dd |}
      ∧ called run
        = [CallNewClient "id" "secret"; CallFindStackBySlug "demo";
           CallFindDomainByName s "example.org"; CallCreateWorkload s;
           CallCreateSiteDelivery s (workload_AnycastIP wl)
             ("www" +:+ "." +:+ "example.org")]
          ++ replicate polls (CallGetInstances s wl)
          ++ [CallFindSiteDeliveryDomain s st;
              CallSetDNSCNAME s d "www" dd;
              CallRequestFreeSSLCert s st;
              CallCreateDemoWAFRules s st].
Proof.
  intros run.
  assert (main ascii_ToLower sample_config sample_world start
          = Returns tt run) as Hrun by (vm_compute; reflexivity).
  split; [exact Hrun|].
  exact (successful_run ascii_ToLower sample_config sample_world run Hrun).
Defined.


(** The run of [main] for a site that has no delivery domain of the
    CDN. *)
Lemma cname_target_may_be_empty_witness :
  let run :=
    run_of (main ascii_ToLower sample_config undelivered_world start) in
  main ascii_ToLower sample_config undelivered_world start = Returns tt run
  ∧ (∀ x, x ∈ ["www.example.org"] → ¬ ends_with x ".stackpathcdn.com")
  ∧ deliveryDomain (globals run) = ""
  ∧ ∃ s d, CallSetDNSCNAME s d "www" "" ∈ called run.
Proof.
  intros run.
  assert (main ascii_ToLower sample_config undelivered_world start
          = Returns tt run) as Hrun by (vm_compute; reflexivity).
  assert (∀ x, x ∈ ["www.example.org"] → ¬ ends_with x ".stackpathcdn.com")
    as Hnone.
  { intros x ->%list_elem_of_singleton Hend.
    apply HasSuffix_spec in Hend. discriminate. }
  split; [exact Hrun|]. split; [exact Hnone|].
  apply (cname_target_may_be_empty ascii_ToLower no_url_error
           (λ _, Fetched ["www.example.org"]) sample_config
           undelivered_world run sample_client (respond 200 "200 OK" "{}")
           sample_stack sample_site
           {| req_method := "GET";
              req_url := baseURL +:+ "/delivery/v1/stacks/demo/sites/site1"
                         +:+ "/delivery_domains";
              req_header := ∅; req_body := None |}
           "{}" ["www.example.org"] Hrun eq_refl eq_refl).
  - exists (sample_response 200 "200 OK" "{}").
    split; [reflexivity|]. split; [reflexivity|]. by split.
  - reflexivity.
  - exact Hnone.
Defined.
